(** * Verification of the notes synchronisation core ([src/sync.js])

    The development embeds the three parts of [sync.js] that carry its
    behaviour:

    - [JWETransformer] ([encode]/[decode]), the encrypted-record codec;
    - the conflict callback of [syncKinto] and the cycle around it
      (credential renewal, store sync, conflict resolution, the [.catch]
      classifier and its restarts);
    - [loadFromKinto] and the fired part ([later]) of [saveToKinto].

    JavaScript objects are finite maps from property names to primitive
    values; promises are computations over an explicit world that either
    resolve or reject; the services the file calls but does not define (the
    Jose cipher, [JSON], the Kinto collection, the browser runtime, the
    credential renewal) are parameters.

    What the model leaves out: the debounce timer of [saveToKinto] (only
    the function it fires is embedded); failures of the credential storage;
    exceptions thrown synchronously by [sendMessage], [sendMetric] and
    [console.error]; thrown values that are not [Error] objects; numbers
    that are not integers; the randomness of a JWE (encryption is a
    function of the key and the plaintext). *)

From Stdlib Require Import ZArith String Ascii.
From stdpp Require Import base option strings gmap list pretty.

Local Open Scope string_scope.

(** ** JavaScript values and objects *)

Module JS.

(** Primitive values.  Numbers are integers: the only numbers the code
    handles are millisecond timestamps and HTTP status codes.  Strings are
    sequences of code units. *)
Inductive value : Type :=
| VUndefined
| VNull
| VBool (b : bool)
| VNumber (n : Z)
| VString (s : string).

#[global] Instance value_eq_dec : EqDecision value.
Proof. solve_decision. Defined.

(** An object is its own-property table (property values are primitive:
    notes and wire records are flat). *)
Abbreviation obj := (gmap string value).

(** [o.p]: an absent property reads as [undefined]. *)
Definition get (o : obj) (p : string) : value := default VUndefined (o !! p).

(** [o.hasOwnProperty(p)] *)
Definition hasOwnProperty (o : obj) (p : string) : bool :=
  bool_decide (is_Some (o !! p)).

(** ToBoolean *)
Definition truthy (v : value) : bool :=
  match v with
  | VUndefined | VNull => false
  | VBool b => b
  | VNumber n => negb (n =? 0)%Z
  | VString s => negb (String.eqb s "")
  end.

(** [v1 === v2] on primitives (there is no NaN among integers). *)
Definition strict_eq (v1 v2 : value) : bool := bool_decide (v1 = v2).

(** ToString, as used by [+=] on a string and by template literals. *)
Definition ToString (v : value) : string :=
  match v with
  | VUndefined => "undefined"
  | VNull => "null"
  | VBool true => "true"
  | VBool false => "false"
  | VNumber n => pretty n
  | VString s => s
  end.

(** ToNumber; [None] is NaN.  The conversion of a string is the platform's
    ([StringToNumber]). *)
Definition ToNumber (StringToNumber : string -> option Z) (v : value) : option Z :=
  match v with
  | VUndefined => None
  | VNull => Some 0%Z
  | VBool true => Some 1%Z
  | VBool false => Some 0%Z
  | VNumber n => Some n
  | VString s => StringToNumber s
  end.

(** [v1 < v2]: two strings compare by code units, anything else
    numerically, and a comparison with NaN is false. *)
Definition lt (StringToNumber : string -> option Z) (v1 v2 : value) : bool :=
  match v1, v2 with
  | VString s1, VString s2 => String.ltb s1 s2
  | _, _ =>
      match ToNumber StringToNumber v1, ToNumber StringToNumber v2 with
      | Some n1, Some n2 => (n1 <? n2)%Z
      | _, _ => false
      end
  end.

(** [hay.includes(needle)] *)
Fixpoint includes (needle hay : string) : bool :=
  String.prefix needle hay
  || match hay with
     | EmptyString => false
     | String _ hay' => includes needle hay'
     end.

(** [s.replace(/=/, '')]: the first [=] is removed. *)
Fixpoint remove_first_eq (s : string) : string :=
  match s with
  | EmptyString => EmptyString
  | String c s' =>
      if Ascii.eqb c "="%char then s' else String c (remove_first_eq s')
  end.

End JS.
Export JS.

(** ** Errors and promise outcomes *)

Inductive error_class : Type :=
| PlainError            (* [Error] and its library subclasses *)
| TypeError
| SyntaxError
| ServerKeyNewerError
| ServerKeyOlderError.

#[global] Instance error_class_eq_dec : EqDecision error_class.
Proof. solve_decision. Defined.

(** A thrown value: its class (for [instanceof]), its [message] and the
    [response.status] it carries when it is an HTTP failure. *)
Record error : Type := mkError {
  eclass : error_class;
  message : string;
  response_status : option Z;
}.

#[global] Instance error_eq_dec : EqDecision error.
Proof. solve_decision. Defined.

Definition new_Error (msg : string) : error := mkError PlainError msg None.

(** [class ServerKeyNewerError extends Error] *)
Definition new_ServerKeyNewerError : error :=
  mkError ServerKeyNewerError
    "key used to encrypt the record appears to be newer than our key" None.

(** [class ServerKeyOlderError extends Error] *)
Definition new_ServerKeyOlderError : error :=
  mkError ServerKeyOlderError
    "key used to encrypt the record appears to be older than our key" None.

(** The [TypeError] of a property access on [null]/[undefined], or of a
    property assignment on a primitive in strict code. *)
Definition new_TypeError (msg : string) : error := mkError TypeError msg None.

(** How a promise settles. *)
Inductive outcome (A : Type) : Type :=
| Resolved (a : A)
| Rejected (e : error).
Arguments Resolved {A} a.
Arguments Rejected {A} e.

(** ** The encrypted-record transformer *)

Module Transformer.

(** The JWK held by a credential: [{kty, k, kid}]. *)
Record jwk : Type := mkJwk { kty : string; k : string; kid : string }.

#[global] Instance jwk_eq_dec : EqDecision jwk.
Proof. solve_decision. Defined.

(** What [crypto.subtle.importKey] is given. *)
Record crypto_key : Type := mkCryptoKey { ck_kty : string; ck_k : string }.

#[global] Instance crypto_key_eq_dec : EqDecision crypto_key.
Proof. solve_decision. Defined.

(** What [JSON.parse] returns: an object, or a primitive. *)
Inductive parsed : Type :=
| PObject (o : obj)
| PPrimitive (v : value).

(** The services of the platform: the Jose encrypter and decrypter, [JSON]
    and the string-to-number conversion. *)
Record platform : Type := mkPlatform {
  jose_encrypt : crypto_key -> string -> string;
  jose_decrypt : crypto_key -> string -> outcome string;
  JSON_stringify : obj -> string;
  JSON_parse : string -> outcome parsed;
  StringToNumber : string -> option Z;
}.

(** [JSON.stringify] leaves out the properties whose value is
    [undefined]. *)
Definition drop_undefined (o : obj) : obj :=
  filter (fun kv => kv.2 <> VUndefined) o.

(** The contract of the platform: decryption under the key that encrypted
    gives the plaintext back, a JWE is never the empty string, and parsing
    what [JSON.stringify] printed gives the object back. *)
Record platform_ok (P : platform) : Prop := mkPlatformOk {
  jose_round_trip :
    forall ck s, jose_decrypt P ck (jose_encrypt P ck s) = Resolved s;
  jose_nonempty :
    forall ck s, jose_encrypt P ck s <> "";
  JSON_round_trip :
    forall o, JSON_parse P (JSON_stringify P o) = Resolved (PObject (drop_undefined o));
}.

(** The calls made to the cipher. *)
Inductive cipher_call : Type :=
| CallEncrypt (ck : crypto_key) (plaintext : string)
| CallDecrypt (ck : crypto_key) (ciphertext : string).

(** An asynchronous computation of the transformer: how it settles, and
    the cipher calls it made. *)
Definition Async (A : Type) : Type := outcome A * list cipher_call.

Definition ret {A} (a : A) : Async A := (Resolved a, []).
Definition throw {A} (e : error) : Async A := (Rejected e, []).
Definition bind {A B} (m : Async A) (f : A -> Async B) : Async B :=
  match m with
  | (Resolved a, calls) => let '(r, calls') := f a in (r, (calls ++ calls')%list)
  | (Rejected e, calls) => (Rejected e, calls)
  end.

Notation "'await' x <- m ; f" := (bind m (fun x => f))
  (at level 10, x name, m at level 100, f at level 200).

Section WithPlatform.
Variable P : platform.

(** [shared_key(key)] *)
Definition shared_key (key : jwk) : crypto_key :=
  mkCryptoKey (kty key) (remove_first_eq (k key)).

(** [encrypt(key, content)] *)
Definition encrypt (key : jwk) (content : obj) : Async string :=
  let plaintext := JSON_stringify P content in
  (Resolved (jose_encrypt P (shared_key key) plaintext),
   [CallEncrypt (shared_key key) plaintext]).

(** [decrypt(key, encrypted)] *)
Definition decrypt (key : jwk) (encrypted : string) : Async parsed :=
  (match jose_decrypt P (shared_key key) encrypted with
   | Resolved result => JSON_parse P result
   | Rejected e => Rejected e
   end,
   [CallDecrypt (shared_key key) encrypted]).

(** [JWETransformer.encode]; [key] is [this.key]. *)
Definition encode (key : jwk) (record : obj) : Async obj :=
  await ciphertext <- encrypt key record;
  let status :=
    if truthy (get record "_status")
    then (if strict_eq (get record "_status") (VString "deleted")
          then VString "updated"
          else get record "_status")
    else get record "_status" in
  let encryptedResult : obj :=
    {[ "content" := VString ciphertext;
       "id" := get record "id";
       "_status" := status;
       "kid" := VString (kid key) ]} in
  let encryptedResult :=
    if hasOwnProperty record "last_modified"
    then <["last_modified" := get record "last_modified"]> encryptedResult
    else encryptedResult in
  ret encryptedResult.

(** [decoded.last_modified = v] in strict code: a property of an object
    is written; on a primitive the assignment throws. *)
Definition set_property (d : parsed) (p : string) (v : value) : outcome parsed :=
  match d with
  | PObject o => Resolved (PObject (<[p := v]> o))
  | PPrimitive _ =>
      Rejected (new_TypeError "cannot create property on a primitive")
  end.

(** [decoded.p]: reading a property of [null] throws, of another
    primitive gives [undefined]. *)
Definition get_property (d : parsed) (p : string) : outcome value :=
  match d with
  | PObject o => Resolved (get o p)
  | PPrimitive VNull | PPrimitive VUndefined =>
      Rejected (new_TypeError "cannot read property of null")
  | PPrimitive _ => Resolved VUndefined
  end.

Definition lift {A} (r : outcome A) : Async A := (r, []).

(** [JWETransformer.decode]; [key] is [this.key]. *)
Definition decode (key : jwk) (record : obj) : Async parsed :=
  if negb (truthy (get record "content")) then
    (* This can happen for tombstones if a record is deleted. *)
    if truthy (get record "deleted")
    then ret (PObject record)
    else throw (new_Error "No ciphertext: nothing to decrypt?")
  else
  if negb (strict_eq (get record "kid") (VString (kid key))) then
    if JS.lt (StringToNumber P) (VString (kid key)) (get record "kid")
    then throw new_ServerKeyNewerError
    else throw new_ServerKeyOlderError
  else
  await decoded <- decrypt key (ToString (get record "content"));
  await decoded <-
    (if hasOwnProperty record "last_modified"
     then lift (set_property decoded "last_modified" (get record "last_modified"))
     else ret decoded);
  await status <- lift (get_property decoded "_status");
  if strict_eq status (VString "deleted")
  then lift (set_property decoded "deleted" (VBool true))
  else ret decoded.

End WithPlatform.

End Transformer.

(** ** The synchronisation cycle *)

Module Sync.
Import Transformer.

(** [{ key, access_token }] *)
Record credential : Type := mkCredential { key : jwk; access_token : string }.

#[global] Instance credential_eq_dec : EqDecision credential.
Proof. solve_decision. Defined.

(** A conflict reported by [collection.sync]; [None] is [null]. *)
Record conflict : Type := mkConflict { local : option obj; remote : option obj }.

(** The part of the sync result the code reads. *)
Record syncResult : Type := mkSyncResult {
  conflicts : list conflict;
  published : list obj;
}.

(** The messages passed to [browser.runtime.sendMessage], by [action].  For
    [notes], [None] is [null] in [kinto-loaded] and [undefined] in
    [text-synced]. *)
Inductive runtime_message : Type :=
| Reconnect
| KintoLoaded (notes : option (list obj)) (last_modified : value)
| TextEditing
| TextSaved
| TextSynced (notes : option (list obj)) (conflict : value).

(** What the code does to the objects it is given, in the order it does
    it. *)
Inductive event : Type :=
| CredentialsGet
| CredentialsSet (c : credential)
| CredentialsClear
| RenewCredential (c : credential)
| CollectionSync (c : credential)
| CollectionUpsert (record : obj)
| CollectionResolve (c : conflict) (resolution : option obj)
| CollectionResetSyncStatus
| CollectionList
| DeleteCollection (access_token : string)
| SendMetric (name : string)       (* [sendMetric(name)] *)
| SendMetrics (name : string)      (* [sendMetrics(name)] *)
| SendMessage (m : runtime_message)
| ConsoleError (e : error)
| SetConflict (b : bool).

(** The collaborators: each answers a call from what has happened so far. *)
Record env : Type := mkEnv {
  mergeWarning : string;
  fxaRenewCredential : list event -> credential -> outcome credential;
  collection_sync : list event -> credential -> outcome syncResult;
  collection_resolve : list event -> conflict -> option obj -> outcome unit;
  collection_upsert : list event -> obj -> outcome unit;
  collection_resetSyncStatus : list event -> outcome unit;
  collection_list : list event -> outcome (list obj);
  deleteCollection : list event -> string -> outcome unit;
  sendMessage : list event -> runtime_message -> outcome unit;
}.

(** [class Credentials]: "a mechanism to fetch credentials", with the
    three methods the cycle calls on it, over the state [St] of the
    mechanism. *)
Class Credentials (St : Type) : Type := {
  credentials_get : St -> option credential;
  credentials_set : credential -> St -> St;
  credentials_clear : St -> St;
}.

(** A mechanism that gives back what was set, and nothing once cleared. *)
Class CredentialsOk (St : Type) `{Credentials St} : Prop := {
  get_after_set : forall c s, credentials_get (credentials_set c s) = Some c;
  get_after_clear : forall s, credentials_get (credentials_clear s) = None;
}.

(** [class BrowserStorageCredentials extends Credentials]: the credential
    is the entry [credentials] of the browser storage. *)
#[global] Instance BrowserStorageCredentials : Credentials (gmap string credential) := {
  credentials_get storage := storage !! "credentials";
  credentials_set c storage := <["credentials" := c]> storage;
  credentials_clear storage := delete "credentials" storage;
}.

(** The mutable state: the state of the credentials mechanism,
    [client.conflict], and the events so far. *)
Record world (St : Type) : Type := mkWorld {
  storage : St;
  client_conflict : value;
  trace : list event;
}.
Arguments mkWorld {St} storage client_conflict trace.
Arguments storage {St} w.
Arguments client_conflict {St} w.
Arguments trace {St} w.

(** [published.find(note => note.wasSingleNote)], with the index of the
    record found: the record is then written in place. *)
Definition find_wasSingleNote (published : list obj) : option (nat * obj) :=
  list_find (fun note => Is_true (truthy (get note "wasSingleNote"))) published.

(** The variables [syncKinto] closes over. *)
Record locals : Type := mkLocals {
  l_credential : credential;
  l_collection : bool;    (* whether [collection] has been assigned *)
}.

Section WithEnv.
Context {St : Type} {credentials : Credentials St}.
Variable E : env.

Definition log (e : event) (w : world St) : world St :=
  mkWorld (storage w) (client_conflict w) (trace w ++ [e]).

Definition set_storage (s : St) (w : world St) : world St :=
  mkWorld s (client_conflict w) (trace w).

Definition set_conflict (b : bool) (w : world St) : world St :=
  log (SetConflict b) (mkWorld (storage w) (VBool b) (trace w)).

(** [reconnectSync(credentials)] *)
Definition reconnectSync (w : world St) : world St :=
  let w := log CredentialsClear (set_storage (credentials_clear (storage w)) w) in
  log (SendMessage Reconnect) w.

(** The banner: [`<p>${mergeWarning}</p>`] *)
Definition banner : string := "<p>" ++ mergeWarning E ++ "</p>".

(** The body of the callback given to [conflicts.map], up to the resolution
    it computes.  It runs on the [published] array of the round and may
    write one of its records; [Rejected] is an exception thrown by the
    callback. *)
Definition resolution_of (c : conflict) (published : list obj) (w : world St)
  : outcome (option obj) * list obj * world St :=
  match remote c with
  | None =>
      match local c with
      | None => (Rejected (new_TypeError "conflict.local is null"), published, w)
      | Some l =>
          (Resolved (Some {[ "id" := get l "id"; "content" := get l "content" ]}),
           published, w)
      end
  | Some r =>
      let totalOps := ToString (get r "content") ++ banner in
      let result :=
        if strict_eq (get r "id") (VString "singleNote") then
          match find_wasSingleNote published with
          | None => (Rejected (new_TypeError "wasSingleNote is undefined"), published, w)
          | Some (i, wasSingleNote) =>
              let totalOps := totalOps ++ ToString (get wasSingleNote "content") in
              let wasSingleNote := <["content" := VString totalOps]> wasSingleNote in
              let published := <[i := wasSingleNote]> published in
              let w := log (CollectionUpsert wasSingleNote) w in
              let w := log (SendMetric "migrate-single-note") w in
              (Resolved (local c), published, w)
          end
        else
          match local c with
          | None => (Rejected (new_TypeError "conflict.local is null"), published, w)
          | Some l =>
              let totalOps := totalOps ++ ToString (get l "content") in
              (Resolved (Some {[ "id" := get r "id"; "content" := VString totalOps ]}),
               published, w)
          end in
      match result with
      | (Resolved resolution, published, w) =>
          let w := set_conflict true w in
          let w := log (SendMetrics "handle-conflict") w in
          (Resolved resolution, published, w)
      | thrown => thrown
      end
  end.

(** The whole callback: the resolution, then [collection.resolve(conflict,
    resolution)], whose promise is the callback's result. *)
Definition conflict_callback (c : conflict) (published : list obj) (w : world St)
  : outcome (outcome unit) * list obj * world St :=
  match resolution_of c published w with
  | (Resolved resolution, published, w) =>
      let answer := collection_resolve E (trace w) c resolution in
      (Resolved answer, published, log (CollectionResolve c resolution) w)
  | (Rejected e, published, w) => (Rejected e, published, w)
  end.

(** [conflicts.map(callback)]: the callbacks run one after the other on the
    same [published] array; an exception ends the map. *)
Fixpoint map_conflicts (cs : list conflict) (published : list obj) (w : world St)
  : outcome (list (outcome unit)) * list obj * world St :=
  match cs with
  | [] => (Resolved [], published, w)
  | c :: cs' =>
      match conflict_callback c published w with
      | (Resolved p, published, w) =>
          match map_conflicts cs' published w with
          | (Resolved ps, published, w) => (Resolved (p :: ps), published, w)
          | thrown => thrown
          end
      | (Rejected e, published, w) => (Rejected e, published, w)
      end
  end.

(** [Promise.all]: rejected by the first rejection. *)
Fixpoint Promise_all (ps : list (outcome unit)) : outcome unit :=
  match ps with
  | [] => Resolved tt
  | Resolved _ :: ps' => Promise_all ps'
  | Rejected e :: _ => Rejected e
  end.

(** The chain of [syncKinto] before its [.catch], once a credential has been
    received.  [retry] is the recursive call [syncKinto(client,
    credentials)]; [None] means the chain has not settled. *)
Definition attempt (retry : world St -> option (outcome value * world St))
    (received : credential) (w : world St)
  : option (outcome value * locals * world St) :=
  match fxaRenewCredential E (trace w) received with
  | Rejected e =>
      Some (Rejected e, mkLocals received false, log (RenewCredential received) w)
  | Resolved renewedCred =>
      let w := log (RenewCredential received) w in
      let w := log (CredentialsSet renewedCred) (set_storage (credentials_set renewedCred (storage w)) w) in
      let vars := mkLocals renewedCred true in
      match collection_sync E (trace w) renewedCred with
      | Rejected e => Some (Rejected e, vars, log (CollectionSync renewedCred) w)
      | Resolved result =>
          let w := log (CollectionSync renewedCred) w in
          match conflicts result with
          | [] => Some (Resolved VUndefined, vars, w)
          | _ :: _ =>
              match map_conflicts (conflicts result) (published result) w with
              | (Rejected e, _, w) => Some (Rejected e, vars, w)
              | (Resolved promises, _, w) =>
                  match Promise_all promises with
                  | Rejected e => Some (Rejected e, vars, w)
                  | Resolved _ =>
                      match retry w with
                      | Some (r, w) => Some (r, vars, w)
                      | None => None
                      end
                  end
              end
          end
      end
  end.

(** The [.catch] handler of [syncKinto]. *)
Definition handle_error (retry : world St -> option (outcome value * world St))
    (vars : locals) (e : error) (w : world St)
  : option (outcome value * world St) :=
  if bool_decide (response_status e = Some 401%Z) then
    Some (Resolved VUndefined, reconnectSync w)
  else if bool_decide (eclass e = ServerKeyNewerError) then
    Some (Resolved VUndefined, reconnectSync (log (ConsoleError e) w))
  else if bool_decide (eclass e = ServerKeyOlderError) then
    let w := log (ConsoleError e) w in
    let token := access_token (l_credential vars) in
    match deleteCollection E (trace w) token with
    | Rejected e' => Some (Rejected e', log (DeleteCollection token) w)
    | Resolved _ =>
        let w := log (DeleteCollection token) w in
        if l_collection vars then
          match collection_resetSyncStatus E (trace w) with
          | Rejected e' => Some (Rejected e', log CollectionResetSyncStatus w)
          | Resolved _ => retry (log CollectionResetSyncStatus w)
          end
        else Some (Rejected (new_TypeError "collection is undefined"), w)
    end
  else if includes "flushed" (message e) then
    if l_collection vars then
      match collection_resetSyncStatus E (trace w) with
      | Rejected e' => Some (Rejected e', log CollectionResetSyncStatus w)
      | Resolved _ => retry (log CollectionResetSyncStatus w)
      end
    else Some (Rejected (new_TypeError "collection is undefined"), w)
  else if includes "syncResult is undefined" (message e) then
    Some (Resolved VNull, w)
  else if bool_decide (message e = "Failed to renew token") then
    Some (Resolved VUndefined, reconnectSync w)
  else
    Some (Rejected e, reconnectSync (log (ConsoleError e) w)).

(** The body of [syncKinto(client, credentials)]: the credential is read;
    without one the cycle resolves at once; with one the chain runs, and
    its rejection goes to the handler. *)
Definition cycle (retry : world St -> option (outcome value * world St)) (w : world St)
  : option (outcome value * world St) :=
  let w := log CredentialsGet w in
  match credentials_get (storage w) with
  | None => Some (Resolved VUndefined, w)
  | Some received =>
      match attempt retry received w with
      | None => None
      | Some (Resolved v, _, w) => Some (Resolved v, w)
      | Some (Rejected e, vars, w) => handle_error retry vars e w
      end
  end.

(** [syncKinto(client, credentials)].  The function calls itself after
    resolving conflicts and after a flush, without a bound; [fuel] bounds
    the depth of these calls and [None] means it was not enough. *)
Fixpoint syncKinto (fuel : nat) (w : world St) : option (outcome value * world St) :=
  match fuel with
  | O => None
  | S fuel' => cycle (syncKinto fuel') w
  end.

(** [retrieveNote(client)] *)
Definition retrieveNote (w : world St) : outcome (list obj) * world St :=
  (collection_list E (trace w), log CollectionList w).

(** [loadFromKinto(client, credentials)]; its promise always resolves. *)
Definition loadFromKinto (fuel : nat) (w : world St) : option (world St) :=
  match syncKinto fuel w with
  | None => None
  | Some (_, w) =>
      (* Ignore failure of syncKinto by retrieving note even when promise rejected *)
      match retrieveNote w with
      | (Resolved data, w) => Some (log (SendMessage (KintoLoaded (Some data) VNull)) w)
      | (Rejected _, w) => Some (log (SendMessage (KintoLoaded None VNull)) w)
      end
  end.

(** [browser.runtime.sendMessage(...)] where the code uses the promise it
    returns. *)
Definition send (m : runtime_message) (w : world St) : outcome unit * world St :=
  (sendMessage E (trace w) m, log (SendMessage m) w).

(** The function [later] of [saveToKinto]: what runs when the debounce
    timer fires.  It ends by calling [resolve()].  The steps of its chain
    are taken one after the other, with those of no other cycle between
    them. *)
Definition later (fuel : nat) (note : obj) (w : world St) : option (world St) :=
  let after_sync (w : world St) : world St :=
    match retrieveNote w with
    | (Resolved data, w) =>
        match send (TextSynced (Some data) (client_conflict w)) w with
        | (Resolved _, w) => w
        | (Rejected _, w) => log (SendMessage (TextSynced None (client_conflict w))) w
        end
    | (Rejected _, w) => log (SendMessage (TextSynced None (client_conflict w))) w
    end in
  match collection_upsert E (trace w) note with
  | Resolved _ =>
      let w := log (CollectionUpsert note) w in
      let w := log (SendMessage TextSaved) w in
      let w := set_conflict false w in
      match syncKinto fuel w with
      | None => None
      | Some (_, w) => Some (after_sync w)
      end
  | Rejected _ => Some (after_sync (log (CollectionUpsert note) w))
  end.

End WithEnv.

End Sync.

(** ** A reference platform

    A small platform that meets [platform_ok]: a length-prefixed text format
    in place of JSON and a cipher that only tags the plaintext with the key.
    It shows that the contract can be met and gives the concrete runs below
    something to compute with. *)

Module Reference.
Import Transformer.

Fixpoint print_positive (p : positive) : string :=
  match p with
  | xH => "."
  | xO p' => String "0" (print_positive p')
  | xI p' => String "1" (print_positive p')
  end.

Fixpoint read_positive (s : string) : option (positive * string) :=
  match s with
  | String c rest =>
      if Ascii.eqb c "."%char then Some (xH, rest)
      else if Ascii.eqb c "0"%char then
        match read_positive rest with
        | Some (p, rest') => Some (xO p, rest')
        | None => None
        end
      else if Ascii.eqb c "1"%char then
        match read_positive rest with
        | Some (p, rest') => Some (xI p, rest')
        | None => None
        end
      else None
  | EmptyString => None
  end.

Definition print_Z (n : Z) : string :=
  match n with
  | Z0 => "z"
  | Zpos p => String "p" (print_positive p)
  | Zneg p => String "m" (print_positive p)
  end.

Definition read_Z (s : string) : option (Z * string) :=
  match s with
  | String c rest =>
      if Ascii.eqb c "z"%char then Some (Z0, rest)
      else if Ascii.eqb c "p"%char then
        match read_positive rest with
        | Some (p, rest') => Some (Zpos p, rest')
        | None => None
        end
      else if Ascii.eqb c "m"%char then
        match read_positive rest with
        | Some (p, rest') => Some (Zneg p, rest')
        | None => None
        end
      else None
  | EmptyString => None
  end.

(** The first [n] characters, and the rest. *)
Fixpoint take_chars (n : nat) (s : string) : option (string * string) :=
  match n with
  | O => Some (EmptyString, s)
  | S n' =>
      match s with
      | String c s' =>
          match take_chars n' s' with
          | Some (taken, rest) => Some (String c taken, rest)
          | None => None
          end
      | EmptyString => None
      end
  end.

(** A string is printed as its length, then its characters. *)
Definition print_string (s : string) : string :=
  print_Z (Z.of_nat (String.length s)) ++ s.

Definition read_string (s : string) : option (string * string) :=
  match read_Z s with
  | Some (n, rest) => take_chars (Z.to_nat n) rest
  | None => None
  end.

Definition print_value (v : value) : string :=
  match v with
  | VUndefined => "u"
  | VNull => "n"
  | VBool true => "t"
  | VBool false => "f"
  | VNumber n => String "i" (print_Z n)
  | VString s => String "s" (print_string s)
  end.

Definition read_value (s : string) : option (value * string) :=
  match s with
  | String c rest =>
      if Ascii.eqb c "u"%char then Some (VUndefined, rest)
      else if Ascii.eqb c "n"%char then Some (VNull, rest)
      else if Ascii.eqb c "t"%char then Some (VBool true, rest)
      else if Ascii.eqb c "f"%char then Some (VBool false, rest)
      else if Ascii.eqb c "i"%char then
        match read_Z rest with
        | Some (n, rest') => Some (VNumber n, rest')
        | None => None
        end
      else if Ascii.eqb c "s"%char then
        match read_string rest with
        | Some (str, rest') => Some (VString str, rest')
        | None => None
        end
      else None
  | EmptyString => None
  end.

(** The properties one after the other, each behind a comma; a semicolon
    ends the object. *)
Fixpoint print_fields (fields : list (string * value)) : string :=
  match fields with
  | [] => ";"
  | (p, v) :: fields' =>
      String "," (print_string p ++ print_value v ++ print_fields fields')
  end.

Fixpoint read_fields (fuel : nat) (s : string) : option (list (string * value) * string) :=
  match fuel with
  | O => None
  | S fuel' =>
      match s with
      | String c rest =>
          if Ascii.eqb c ";"%char then Some ([], rest)
          else if Ascii.eqb c ","%char then
            match read_string rest with
            | Some (p, rest1) =>
                match read_value rest1 with
                | Some (v, rest2) =>
                    match read_fields fuel' rest2 with
                    | Some (fields, rest3) => Some ((p, v) :: fields, rest3)
                    | None => None
                    end
                | None => None
                end
            | None => None
            end
          else None
      | EmptyString => None
      end
  end.

Definition stringify (o : obj) : string :=
  print_fields (map_to_list (drop_undefined o)).

Definition parse (s : string) : outcome parsed :=
  match read_fields (String.length s) s with
  | Some (fields, EmptyString) => Resolved (PObject (list_to_map fields))
  | _ => Rejected (mkError SyntaxError "unexpected token" None)
  end.

(** The reference cipher writes the key in front of the plaintext and reads
    it back, refusing another key. *)
Definition seal (ck : crypto_key) (plaintext : string) : string :=
  String "J" (print_string (ck_kty ck) ++ print_string (ck_k ck) ++ plaintext).

Definition unseal (ck : crypto_key) (ciphertext : string) : outcome string :=
  match ciphertext with
  | String c rest =>
      if Ascii.eqb c "J"%char then
        match read_string rest with
        | Some (kty', rest1) =>
            match read_string rest1 with
            | Some (k', plaintext) =>
                if bool_decide (mkCryptoKey kty' k' = ck)
                then Resolved plaintext
                else Rejected (new_Error "unwrapKey failed")
            | None => Rejected (new_Error "malformed JWE")
            end
        | None => Rejected (new_Error "malformed JWE")
        end
      else Rejected (new_Error "malformed JWE")
  | EmptyString => Rejected (new_Error "malformed JWE")
  end.

(** Decimal digits only; the empty string is zero. *)
Fixpoint number_of_digits (acc : Z) (s : string) : option Z :=
  match s with
  | EmptyString => Some acc
  | String c rest =>
      let n := N_of_ascii c in
      if ((48 <=? n) && (n <=? 57))%N
      then number_of_digits (10 * acc + Z.of_N (n - 48)) rest
      else None
  end.

Definition platform : Transformer.platform :=
  mkPlatform seal unseal stringify parse (number_of_digits 0).

End Reference.

(** ** Notions used in the statements *)

Module Spec.
Import Transformer.

(** Lexicographic order on strings: a proper prefix comes first, otherwise
    the first code unit that differs decides. *)
Inductive lex_lt : string -> string -> Prop :=
| lex_lt_prefix (c : ascii) (s : string) :
    lex_lt EmptyString (String c s)
| lex_lt_head (c1 c2 : ascii) (s1 s2 : string) :
    (N_of_ascii c1 < N_of_ascii c2)%N ->
    lex_lt (String c1 s1) (String c2 s2)
| lex_lt_tail (c : ascii) (s1 s2 : string) :
    lex_lt s1 s2 ->
    lex_lt (String c s1) (String c s2).

(** The status on the wire: [deleted] travels as [updated], anything else
    as it is. *)
Definition wire_status (record : obj) : value :=
  if truthy (get record "_status")
  then (if strict_eq (get record "_status") (VString "deleted")
        then VString "updated"
        else get record "_status")
  else get record "_status".

(** A failure of [decode] on ciphertext or format grounds: the cipher
    refused the ciphertext, or the plaintext is not JSON, or it is JSON but
    not an object. *)
Definition ciphertext_or_format_failure (P : platform) (key : jwk)
    (ciphertext : string) (e : error) : Prop :=
  jose_decrypt P (shared_key key) ciphertext = Rejected e
  \/ (exists s, jose_decrypt P (shared_key key) ciphertext = Resolved s
               /\ JSON_parse P s = Rejected e)
  \/ (exists s v, jose_decrypt P (shared_key key) ciphertext = Resolved s
                 /\ JSON_parse P s = Resolved (PPrimitive v)
                 /\ eclass e = TypeError).

(** What [decode] returns once the payload is decrypted: the payload with
    the envelope's [last_modified] written over it when the envelope has
    one, and flagged [deleted] when its [_status] says so. *)
Definition decoded_note (record payload : obj) : obj :=
  let decoded :=
    if hasOwnProperty record "last_modified"
    then <["last_modified" := get record "last_modified"]> payload
    else payload in
  if strict_eq (get decoded "_status") (VString "deleted")
  then <["deleted" := VBool true]> decoded
  else decoded.

(** The sentence of the specification about [last_modified]: what [decode]
    returns carries the [last_modified] of the envelope, or none when the
    envelope has none. *)
Definition last_modified_is_the_envelope's (P : platform) (key : jwk) (record : obj) : Prop :=
  forall d,
    (decode P key record).1 = Resolved (PObject d) ->
    d !! "last_modified" = record !! "last_modified".

End Spec.

(** The sentence of the specification about the migration conflict:
    resolving it a second time, on the records and in the world the first
    resolution left, leaves the records as the first resolution wrote
    them. *)
Definition migration_is_idempotent {St : Type} (E : Sync.env) (c : Sync.conflict)
    (published : list obj) (w : Sync.world St) : Prop :=
  let '(_, published1, w1) := Sync.resolution_of E c published w in
  let '(_, published2, _) := Sync.resolution_of E c published1 w1 in
  published2 = published1.

(** ** Reading the trace of a cycle *)

Module Trace.
Import Transformer Sync.
#[local] Open Scope list_scope.

(** The events a sync cycle can produce: every event but the listing of the
    notes, the reset of [client.conflict] to [false], and the messages other
    than [reconnect]. *)
Definition cycle_event (e : event) : bool :=
  match e with
  | SendMessage Reconnect => true
  | SendMessage _ => false
  | CollectionList => false
  | SetConflict false => false
  | _ => true
  end.

(** [client.conflict = true] *)
Definition sets_conflict (e : event) : bool :=
  match e with
  | SetConflict true => true
  | _ => false
  end.

(** Whether a conflict was resolved by a merge among these events. *)
Definition conflict_resolved (events : list event) : bool :=
  existsb sets_conflict events.

Section WithCredentials.
Context {St : Type} {credentials : Credentials St}.

(** [w'] is [w] after the events [events] of a sync cycle. *)
Definition cycle_of (w w' : world St) (events : list event) : Prop :=
  trace w' = trace w ++ events
  /\ forallb cycle_event events = true
  /\ client_conflict w'
     = (if conflict_resolved events then VBool true else client_conflict w).

Definition extends (w w' : world St) : Prop := exists events, cycle_of w w' events.

Definition is_CollectionSync (e : event) : bool :=
  match e with
  | CollectionSync _ => true
  | _ => false
  end.

(** How many times the store's [sync] has been called. *)
Definition syncs (events : list event) : nat :=
  length (List.filter is_CollectionSync events).

(** The failures after which the handler restarts the cycle. *)
Definition restarting (e : error) : bool :=
  negb (bool_decide (response_status e = Some 401%Z))
  && negb (bool_decide (eclass e = ServerKeyNewerError))
  && (bool_decide (eclass e = ServerKeyOlderError) || includes "flushed" (message e)).

(** An answer of the store's [sync] that does not lead to another cycle. *)
Definition calm (answer : outcome syncResult) : Prop :=
  match answer with
  | Resolved result => conflicts result = []
  | Rejected e => restarting e = false
  end.

(** From its [n]-th call on, the store's [sync] gives calm answers: the
    server stops reporting conflicts, flushes and older keys. *)
Definition settles_after (E : env) (n : nat) : Prop :=
  forall events c, n <= syncs events -> calm (collection_sync E events c).

(** A way of restarting the cycle that only produces cycle events. *)
Definition retry_extends (retry : world St -> option (outcome value * world St)) : Prop :=
  forall w r w', retry w = Some (r, w') -> extends w w'.

(** The world in which the sync of a save cycle starts: the note is
    upserted, [text-saved] is sent, [client.conflict] is reset. *)
Definition saved (note : obj) (w : world St) : world St :=
  set_conflict false (log (SendMessage TextSaved) (log (CollectionUpsert note) w)).

(** The [kinto-loaded] messages among some events. *)
Definition kinto_loaded_messages (events : list event) : list runtime_message :=
  omap (fun e => match e with
                 | SendMessage (KintoLoaded notes lm) => Some (KintoLoaded notes lm)
                 | _ => None
                 end) events.



(** The sentence of the specification about [kinto-loaded]: a load sends
    it, exactly once. *)
Definition kinto_loaded_is_sent_once (E : env) (w : world St) : Prop :=
  exists fuel w' events,
    loadFromKinto E fuel w = Some w'
    /\ trace w' = trace w ++ events
    /\ length (kinto_loaded_messages events) = 1.

End WithCredentials.

End Trace.

(** ** Concrete notes, records and keys *)

Module Examples.
Import Transformer.

Definition key_2017 : jwk := mkJwk "oct" "c2VjcmV0LWtleQ==" "20171005".
Definition key_2018 : jwk := mkJwk "oct" "bmV3ZXIta2V5" "20180312".

(** A note that was edited and carries the timestamp of its last sync. *)
Definition note_abc : obj :=
  {[ "id" := VString "abc"; "content" := VString "<p>x</p>";
     "_status" := VString "updated"; "last_modified" := VNumber 1507000000000 ]}.

(** A note deleted on this client. *)
Definition note_deleted : obj :=
  {[ "id" := VString "abc"; "content" := VString "<p>x</p>";
     "_status" := VString "deleted" ]}.

(** A tombstone as the store sends it. *)
Definition tombstone : obj :=
  {[ "id" := VString "abc"; "deleted" := VBool true;
     "last_modified" := VNumber 1507000000001 ]}.

(** What [encode] makes of [note_abc] under [key_2017] on the reference
    platform. *)
Definition record_abc : obj :=
  {[ "content" := VString (jose_encrypt Reference.platform (shared_key key_2017)
                             (JSON_stringify Reference.platform note_abc));
     "id" := VString "abc";
     "_status" := VString "updated";
     "kid" := VString "20171005";
     "last_modified" := VNumber 1507000000000 ]}.

(** The same record as the store returns it after another write: the
    envelope carries a later timestamp than the payload. *)
Definition record_abc_later : obj :=
  <["last_modified" := VNumber 1507000000777]> record_abc.

(** The same record without a timestamp in the envelope. *)
Definition record_abc_bare : obj := delete "last_modified" record_abc.

(** Records written by clients holding another key. *)
Definition record_of_2018 : obj := <["kid" := VString "20180312"]> record_abc.
Definition record_of_2016 : obj := <["kid" := VString "20160923"]> record_abc.

(** The store and the runtime on a quiet day: the token is renewed, the
    sync reports nothing, every call succeeds; only a note without an id is
    refused by [upsert]. *)
Definition quiet : Sync.env :=
  Sync.mkEnv
    "Your notes were merged"
    (fun _ c => Resolved c)
    (fun _ _ => Resolved (Sync.mkSyncResult [] []))
    (fun _ _ _ => Resolved tt)
    (fun _ note =>
       if hasOwnProperty note "id" then Resolved tt
       else Rejected (new_Error "Cannot upsert a record missing id."))
    (fun _ => Resolved tt)
    (fun _ => Resolved [note_abc])
    (fun _ _ => Resolved tt)
    (fun _ _ => Resolved tt).

Definition signed_in : Sync.credential := Sync.mkCredential key_2017 "token-1".

(** A signed-in client that has done nothing yet. *)
(** The browser storage of a signed-in client. *)
Definition signed_in_storage : gmap string Sync.credential :=
  {[ "credentials" := signed_in ]}.

Definition fresh : Sync.world (gmap string Sync.credential) :=
  Sync.mkWorld signed_in_storage VUndefined [].

(** The third scenario of the specification. *)
Definition local_abc : obj := {[ "id" := VString "abc"; "content" := VString "x" ]}.
Definition conflict_remote_null : Sync.conflict := Sync.mkConflict (Some local_abc) None.

(** Two edits of the same note. *)
Definition remote_abc : obj :=
  {[ "id" := VString "abc"; "content" := VString "<p>theirs</p>" ]}.
Definition conflict_abc : Sync.conflict :=
  Sync.mkConflict (Some local_abc) (Some remote_abc).

(** The migration: the server still has the note of the single-note format,
    this client has deleted its own and published its successor. *)
Definition remote_singleNote : obj :=
  {[ "id" := VString "singleNote"; "content" := VString "<p>old</p>" ]}.
Definition local_singleNote : obj :=
  {[ "id" := VString "singleNote"; "content" := VString "<p>old</p>";
     "_status" := VString "deleted" ]}.
Definition conflict_singleNote : Sync.conflict :=
  Sync.mkConflict (Some local_singleNote) (Some remote_singleNote).
Definition successor : obj :=
  {[ "id" := VString "n1"; "content" := VString "<p>new</p>";
     "wasSingleNote" := VBool true ]}.
Definition published_after_migration : list obj := [successor].

(** The failure of an HTTP call answered 401. *)
Definition http_401 : error := mkError PlainError "HTTP 401 Unauthorized" (Some 401%Z).

(** The second scenario of the specification: the store's sync is answered
    401. *)
Definition unauthorized : Sync.env :=
  Sync.mkEnv
    (Sync.mergeWarning quiet)
    (Sync.fxaRenewCredential quiet)
    (fun _ _ => Rejected http_401)
    (Sync.collection_resolve quiet)
    (Sync.collection_upsert quiet)
    (Sync.collection_resetSyncStatus quiet)
    (Sync.collection_list quiet)
    (Sync.deleteCollection quiet)
    (Sync.sendMessage quiet).

(** The records on the server were written under an older key, and the
    server answers 401 to the request that deletes them. *)
Definition rotated_then_unauthorized : Sync.env :=
  Sync.mkEnv
    (Sync.mergeWarning quiet)
    (Sync.fxaRenewCredential quiet)
    (fun _ _ => Rejected new_ServerKeyOlderError)
    (Sync.collection_resolve quiet)
    (Sync.collection_upsert quiet)
    (Sync.collection_resetSyncStatus quiet)
    (Sync.collection_list quiet)
    (fun _ _ => Rejected http_401)
    (Sync.sendMessage quiet).

(** The first sync reports the conflict on [abc]; the later ones report
    nothing. *)
Definition conflict_once : Sync.env :=
  Sync.mkEnv
    (Sync.mergeWarning quiet)
    (Sync.fxaRenewCredential quiet)
    (fun events _ =>
       if existsb Trace.is_CollectionSync events
       then Resolved (Sync.mkSyncResult [] [])
       else Resolved (Sync.mkSyncResult [conflict_abc] []))
    (Sync.collection_resolve quiet)
    (Sync.collection_upsert quiet)
    (Sync.collection_resetSyncStatus quiet)
    (Sync.collection_list quiet)
    (Sync.deleteCollection quiet)
    (Sync.sendMessage quiet).

(** The fourth scenario of the specification: the records on the server
    were written under an older key; once the collection is deleted the
    sync reports nothing. *)
Definition rotated : Sync.env :=
  Sync.mkEnv
    (Sync.mergeWarning quiet)
    (Sync.fxaRenewCredential quiet)
    (fun events _ =>
       if existsb Trace.is_CollectionSync events
       then Resolved (Sync.mkSyncResult [] [])
       else Rejected new_ServerKeyOlderError)
    (Sync.collection_resolve quiet)
    (Sync.collection_upsert quiet)
    (Sync.collection_resetSyncStatus quiet)
    (Sync.collection_list quiet)
    (Sync.deleteCollection quiet)
    (Sync.sendMessage quiet).

(** A server that answers every sync with a flush. *)
Definition flushing : Sync.env :=
  Sync.mkEnv
    (Sync.mergeWarning quiet)
    (Sync.fxaRenewCredential quiet)
    (fun _ _ => Rejected (new_Error "Server has been flushed."))
    (Sync.collection_resolve quiet)
    (Sync.collection_upsert quiet)
    (Sync.collection_resetSyncStatus quiet)
    (Sync.collection_list quiet)
    (Sync.deleteCollection quiet)
    (Sync.sendMessage quiet).

(** No network: the sync fails with an error the handler does not know,
    and the local database cannot be read either. *)
Definition network_error : error :=
  new_Error "NetworkError when attempting to fetch resource.".
Definition database_error : error := new_Error "IndexedDB is not available.".

Definition offline : Sync.env :=
  Sync.mkEnv
    (Sync.mergeWarning quiet)
    (Sync.fxaRenewCredential quiet)
    (fun _ _ => Rejected network_error)
    (Sync.collection_resolve quiet)
    (Sync.collection_upsert quiet)
    (Sync.collection_resetSyncStatus quiet)
    (Sync.collection_list quiet)
    (Sync.deleteCollection quiet)
    (Sync.sendMessage quiet).

Definition offline_and_unreadable : Sync.env :=
  Sync.mkEnv
    (Sync.mergeWarning quiet)
    (Sync.fxaRenewCredential quiet)
    (fun _ _ => Rejected network_error)
    (Sync.collection_resolve quiet)
    (Sync.collection_upsert quiet)
    (Sync.collection_resetSyncStatus quiet)
    (fun _ => Rejected database_error)
    (Sync.deleteCollection quiet)
    (Sync.sendMessage quiet).

(** The merge of the two edits of [abc]. *)
Definition merged_abc : obj :=
  {[ "id" := VString "abc";
     "content" := VString "<p>theirs</p><p>Your notes were merged</p>x" ]}.

(** A note the editor hands over without an id. *)
Definition draft : obj := {[ "content" := VString "<p>draft</p>" ]}.

End Examples.

(** ** Key material *)

Module KeyMaterial.

(** Whether [=] occurs in a string. *)
Fixpoint has_eq (s : string) : bool :=
  match s with
  | EmptyString => false
  | String c s' => Ascii.eqb c "="%char || has_eq s'
  end.

End KeyMaterial.

(** ** The stages of a cycle *)

Module Stages.
Import Transformer Sync.

Section WithCredentials.
Context {St : Type} {credentials : Credentials St}.

(** The world of a cycle once the credential [received] has been renewed
    into [renewedCred] and stored: where [collection.sync] is called. *)
Definition renewed (received renewedCred : credential) (w : world St) : world St :=
  let w := log (RenewCredential received) (log CredentialsGet w) in
  log (CredentialsSet renewedCred)
    (set_storage (credentials_set renewedCred (storage w)) w).

(** The world once [collection.sync] has answered. *)
Definition synced (received renewedCred : credential) (w : world St) : world St :=
  log (CollectionSync renewedCred) (renewed received renewedCred w).

(** The [collection.resolve] calls among some events, in order. *)
Definition resolutions (events : list event) : list (conflict * option obj) :=
  omap (fun e => match e with
                 | CollectionResolve c resolution => Some (c, resolution)
                 | _ => None
                 end) events.

(** The messages among some events, in order. *)
Definition messages (events : list event) : list runtime_message :=
  omap (fun e => match e with
                 | SendMessage m => Some m
                 | _ => None
                 end) events.

(** A failure none of the tests of the handler recognises. *)
Definition unclassified (e : error) : bool :=
  negb (bool_decide (response_status e = Some 401%Z))
  && negb (bool_decide (eclass e = ServerKeyNewerError))
  && negb (bool_decide (eclass e = ServerKeyOlderError))
  && negb (includes "flushed" (message e))
  && negb (includes "syncResult is undefined" (message e))
  && negb (bool_decide (message e = "Failed to renew token")).

(** A conflict whose callback does not throw: the local side is there, and
    the remote side is absent or is not the single-note sentinel. *)
Definition plain_conflict (c : conflict) : Prop :=
  is_Some (local c)
  /\ forall r, remote c = Some r -> get r "id" <> VString "singleNote".

(** The [text-synced] messages [later] ends with, from the world [w] in
    which it lists the notes: one with the notes; a second one, without
    notes, when the runtime rejects the first; one without notes when the
    listing fails. *)
Definition text_synced_report (E : env) (w : world St) : list runtime_message :=
  match collection_list E (trace w) with
  | Resolved data =>
      match sendMessage E (trace w ++ [CollectionList])
              (TextSynced (Some data) (client_conflict w)) with
      | Resolved _ => [TextSynced (Some data) (client_conflict w)]
      | Rejected _ => [TextSynced (Some data) (client_conflict w);
                       TextSynced None (client_conflict w)]
      end
  | Rejected _ => [TextSynced None (client_conflict w)]
  end.

End WithCredentials.

End Stages.

(** ** The debounce of [saveToKinto] *)

Module Debounce.
Import Transformer Sync.

(** The page around the world: the module variable [syncDebounce] ([None]
    is [null]), the timers armed by [setTimeout] and not yet fired or
    cleared, each with the note its [later] closes over, the next timer id,
    and the promises of [saveToKinto] that have been resolved, each known
    by the id of the timer its call armed. *)
Record page (St : Type) : Type := mkPage {
  page_world : world St;
  syncDebounce : option nat;
  timers : list (nat * obj);
  next_timer : nat;
  resolved : list nat;
}.
Arguments mkPage {St} page_world syncDebounce timers next_timer resolved.
Arguments page_world {St} p.
Arguments syncDebounce {St} p.
Arguments timers {St} p.
Arguments next_timer {St} p.
Arguments resolved {St} p.

(** [clearTimeout(handle)]: nothing happens for [null] or for a timer that
    is no longer armed. *)
Definition clearTimeout (handle : option nat) (armed : list (nat * obj))
  : list (nat * obj) :=
  match handle with
  | None => armed
  | Some id => List.filter (fun t => negb (Nat.eqb t.1 id)) armed
  end.

Section WithEnv.
Context {St : Type} {credentials : Credentials St}.
Variable E : env.

(** [saveToKinto(client, credentials, note)]: [text-editing] is sent, the
    timer of the previous call is cleared and a new one is armed.  The
    result is the promise of the call (the id of its timer) and the page. *)
Definition saveToKinto (note : obj) (p : page St) : nat * page St :=
  let w := log (SendMessage TextEditing) (page_world p) in
  let armed := clearTimeout (syncDebounce p) (timers p) in
  let id := next_timer p in
  (id, mkPage w (Some id) (armed ++ [(id, note)]) (S id) (resolved p)).

(** The oldest armed timer fires: its [later] sets [syncDebounce] to
    [null], runs the save cycle to its end and resolves the promise of its
    call.  Nothing happens when no timer is armed. *)
Definition fire (fuel : nat) (p : page St) : option (page St) :=
  match timers p with
  | [] => Some p
  | (id, note) :: armed =>
      match later E fuel note (page_world p) with
      | Some w => Some (mkPage w None armed (next_timer p) (id :: resolved p))
      | None => None
      end
  end.

(** What happens to a page. *)
Inductive step : Type :=
| Save (note : obj)
| Fire.

Fixpoint run (fuel : nat) (steps : list step) (p : page St) : option (page St) :=
  match steps with
  | [] => Some p
  | Save note :: steps' => run fuel steps' (saveToKinto note p).2
  | Fire :: steps' =>
      match fire fuel p with
      | Some p' => run fuel steps' p'
      | None => None
      end
  end.

(** A page on which no save is under way. *)
Definition idle (p : page St) : Prop := timers p = [] /\ syncDebounce p = None.

(** At most one timer is armed, and [syncDebounce] names it. *)
Definition one_timer (p : page St) : Prop :=
  idle p
  \/ exists id note, timers p = [(id, note)] /\ syncDebounce p = Some id.

(** The ids of the armed timers and of the resolved promises have all been
    handed out. *)
Definition well_formed (p : page St) : Prop :=
  Forall (fun t => t.1 < next_timer p) (timers p)
  /\ Forall (fun id => id < next_timer p) (resolved p).

End WithEnv.

End Debounce.

(** ** More concrete records *)

Module MoreExamples.
Import Transformer.

(** A record that lost its ciphertext and is not a tombstone. *)
Definition record_emptied : obj :=
  {[ "id" := VString "abc"; "kid" := VString "20171005";
     "last_modified" := VNumber 1507000000002 ]}.

(** The record of [note_abc] with its key tag removed. *)
Definition record_untagged : obj := delete "kid" Examples.record_abc.

(** The record of [note_abc] filed under another id and status. *)
Definition record_relabelled : obj :=
  <["id" := VString "xyz"]> (<["_status" := VString "created"]> Examples.record_abc).

(** The failure Kinto raises when the server was flushed. *)
Definition flushed_error : error :=
  new_Error "Server has been flushed. Client Side Timestamp: 1507000000000".

(** The first sync is answered with [answer]; the later ones report
    nothing. *)
Definition first_sync (answer : outcome Sync.syncResult) : Sync.env :=
  Sync.mkEnv
    (Sync.mergeWarning Examples.quiet)
    (Sync.fxaRenewCredential Examples.quiet)
    (fun events _ =>
       if existsb Trace.is_CollectionSync events
       then Resolved (Sync.mkSyncResult [] [])
       else answer)
    (Sync.collection_resolve Examples.quiet)
    (Sync.collection_upsert Examples.quiet)
    (Sync.collection_resetSyncStatus Examples.quiet)
    (Sync.collection_list Examples.quiet)
    (Sync.deleteCollection Examples.quiet)
    (Sync.sendMessage Examples.quiet).

(** The renewal of the token fails. *)
Definition expired : Sync.env :=
  Sync.mkEnv
    (Sync.mergeWarning Examples.quiet)
    (fun _ _ => Rejected (new_Error "Failed to renew token"))
    (Sync.collection_sync Examples.quiet)
    (Sync.collection_resolve Examples.quiet)
    (Sync.collection_upsert Examples.quiet)
    (Sync.collection_resetSyncStatus Examples.quiet)
    (Sync.collection_list Examples.quiet)
    (Sync.deleteCollection Examples.quiet)
    (Sync.sendMessage Examples.quiet).

(** The runtime has no receiver for [text-synced]. *)
Definition nobody_listens : Sync.env :=
  Sync.mkEnv
    (Sync.mergeWarning Examples.quiet)
    (Sync.fxaRenewCredential Examples.quiet)
    (Sync.collection_sync Examples.quiet)
    (Sync.collection_resolve Examples.quiet)
    (Sync.collection_upsert Examples.quiet)
    (Sync.collection_resetSyncStatus Examples.quiet)
    (Sync.collection_list Examples.quiet)
    (Sync.deleteCollection Examples.quiet)
    (fun _ m =>
       match m with
       | Sync.TextSynced _ _ =>
           Rejected (new_Error "Could not establish connection. Receiving end does not exist.")
       | _ => Resolved tt
       end).

(** A local record that has no content yet, in conflict with [remote_abc]. *)
Definition local_blank : obj := {[ "id" := VString "abc" ]}.
Definition conflict_blank : Sync.conflict :=
  Sync.mkConflict (Some local_blank) (Some Examples.remote_abc).

(** The error Kinto raises when it has no sync result. *)
Definition no_sync_result : error := mkError TypeError "syncResult is undefined" None.

(** A page on which nothing has been saved yet. *)
Definition page0 : Debounce.page (gmap string Sync.credential) :=
  Debounce.mkPage Examples.fresh None [] 0 [].

(** Three states of the note the user is typing. *)
Definition typed_1 : obj := {[ "id" := VString "abc"; "content" := VString "<p>h</p>" ]}.
Definition typed_2 : obj := {[ "id" := VString "abc"; "content" := VString "<p>he</p>" ]}.
Definition typed_3 : obj := {[ "id" := VString "abc"; "content" := VString "<p>hey</p>" ]}.

(** A client that is signed out. *)
Definition signed_out : Sync.world (gmap string Sync.credential) :=
  Sync.mkWorld ∅ VUndefined [].

End MoreExamples.

(** * Properties *)

(** ** The reference platform meets the contract *)

Module ReferenceFacts.
Import Transformer Reference.

#[local] Arguments String.append !_ _ / : simpl nomatch.

Lemma append_assoc (a b c : string) : ((a ++ b) ++ c = a ++ (b ++ c))%string.
Proof. induction a as [|x a IH]; simpl; [reflexivity | now rewrite IH]. Qed.

Lemma append_empty_r (a : string) : (a ++ "" = a)%string.
Proof. induction a as [|x a IH]; simpl; [reflexivity | now rewrite IH]. Qed.

Lemma length_append (a b : string) :
  String.length (a ++ b) = String.length a + String.length b.
Proof. induction a as [|x a IH]; simpl; [reflexivity | now rewrite IH]. Qed.

Lemma read_print_positive (p : positive) (rest : string) :
  read_positive (print_positive p ++ rest) = Some (p, rest).
Proof. induction p as [p IH|p IH|]; simpl; [now rewrite IH | now rewrite IH | reflexivity]. Qed.

Lemma read_print_Z (n : Z) (rest : string) :
  read_Z (print_Z n ++ rest) = Some (n, rest).
Proof. destruct n; simpl; [reflexivity | now rewrite read_print_positive ..]. Qed.

Lemma take_chars_append (s rest : string) :
  take_chars (String.length s) (s ++ rest) = Some (s, rest).
Proof. induction s as [|c s IH]; simpl; [reflexivity | now rewrite IH]. Qed.

Lemma read_print_string (s rest : string) :
  read_string (print_string s ++ rest) = Some (s, rest).
Proof.
  unfold read_string, print_string.
  rewrite append_assoc, read_print_Z, Nat2Z.id.
  apply take_chars_append.
Qed.

Lemma read_print_value (v : value) (rest : string) :
  read_value (print_value v ++ rest) = Some (v, rest).
Proof.
  destruct v as [| |[|]|n|s]; simpl; try reflexivity.
  - now rewrite read_print_Z.
  - now rewrite read_print_string.
Qed.

Lemma read_print_fields (fields : list (string * value)) :
  forall (fuel : nat) (rest : string),
    length fields < fuel ->
    read_fields fuel (print_fields fields ++ rest) = Some (fields, rest).
Proof.
  induction fields as [|[p v] fields IH]; intros [|fuel] rest Hfuel; simpl in *;
    try lia; [reflexivity |].
  rewrite !append_assoc, read_print_string, read_print_value.
  rewrite IH by lia. reflexivity.
Qed.

Lemma print_fields_length (fields : list (string * value)) :
  length fields < String.length (print_fields fields).
Proof.
  induction fields as [|[p v] fields IH]; simpl; [lia |].
  rewrite !length_append. lia.
Qed.

Lemma parse_stringify (o : obj) :
  parse (stringify o) = Resolved (PObject (drop_undefined o)).
Proof.
  unfold parse, stringify.
  pose proof (print_fields_length (map_to_list (drop_undefined o))) as Hlen.
  rewrite <- (append_empty_r (print_fields _)) at 2.
  rewrite read_print_fields by exact Hlen.
  now rewrite list_to_map_to_list.
Qed.

Lemma unseal_seal (ck : crypto_key) (s : string) : unseal ck (seal ck s) = Resolved s.
Proof.
  destruct ck as [a b]. unfold unseal, seal. simpl.
  rewrite !read_print_string.
  now rewrite bool_decide_eq_true_2.
Qed.

Lemma reference_platform_ok : platform_ok Reference.platform.
Proof.
  constructor; simpl.
  - apply unseal_seal.
  - intros ck s. unfold seal. discriminate.
  - apply parse_stringify.
Qed.

End ReferenceFacts.

(** ** The transformer *)

Module TransformerFacts.
Import Transformer Spec.

Lemma get_insert_eq (o : obj) (p : string) (v : value) : get (<[p := v]> o) p = v.
Proof. unfold get. now rewrite lookup_insert_eq. Qed.

Lemma get_insert_ne (o : obj) (p q : string) (v : value) :
  p <> q -> get (<[p := v]> o) q = get o q.
Proof. intros Hne. unfold get. now rewrite lookup_insert_ne. Qed.

(** Reading a property does not see that [JSON] dropped the [undefined]
    ones. *)
Lemma get_drop_undefined (o : obj) (p : string) : get (drop_undefined o) p = get o p.
Proof.
  unfold get, drop_undefined.
  destruct (o !! p) as [v|] eqn:Hp.
  - destruct (decide (v = VUndefined)) as [->|Hv].
    + assert (filter (fun kv : string * value => kv.2 <> VUndefined) o !! p = None) as ->;
        [| reflexivity].
      apply map_lookup_filter_None_2. right.
      intros x Hx. rewrite Hp in Hx. injection Hx as <-. simpl. tauto.
    + assert (filter (fun kv : string * value => kv.2 <> VUndefined) o !! p = Some v) as ->;
        [| reflexivity].
      apply map_lookup_filter_Some_2; [exact Hp | exact Hv].
  - assert (filter (fun kv : string * value => kv.2 <> VUndefined) o !! p = None) as ->;
      [| reflexivity].
    apply map_lookup_filter_None_2. now left.
Qed.

Lemma truthy_string (s : string) : s <> "" -> truthy (VString s) = true.
Proof.
  intros Hs. simpl. destruct (String.eqb_spec s ""); [contradiction | reflexivity].
Qed.

Lemma strict_eq_refl (v : value) : strict_eq v v = true.
Proof. unfold strict_eq. now apply bool_decide_eq_true_2. Qed.

Lemma strict_eq_false (v1 v2 : value) : v1 <> v2 -> strict_eq v1 v2 = false.
Proof. unfold strict_eq. now apply bool_decide_eq_false_2. Qed.

Lemma hasOwnProperty_Some (o : obj) (p : string) (v : value) :
  o !! p = Some v -> hasOwnProperty o p = true.
Proof. intros H. unfold hasOwnProperty. apply bool_decide_eq_true_2. now exists v. Qed.

Lemma hasOwnProperty_None (o : obj) (p : string) :
  o !! p = None -> hasOwnProperty o p = false.
Proof.
  intros H. unfold hasOwnProperty. apply bool_decide_eq_false_2.
  intros [v Hv]. congruence.
Qed.

(** [encode] always resolves, with these properties, after one call to the
    cipher. *)
Lemma encode_spec (P : platform) (key : jwk) (record : obj) :
  exists enc,
    encode P key record
    = (Resolved enc, [CallEncrypt (shared_key key) (JSON_stringify P record)])
    /\ get enc "content"
       = VString (jose_encrypt P (shared_key key) (JSON_stringify P record))
    /\ get enc "id" = get record "id"
    /\ enc !! "_status" = Some (wire_status record)
    /\ get enc "kid" = VString (kid key)
    /\ enc !! "last_modified" = record !! "last_modified".
Proof.
  unfold encode, encrypt, bind, ret, wire_status.
  destruct (record !! "last_modified") as [t|] eqn:Hlm.
  - rewrite (hasOwnProperty_Some _ _ _ Hlm).
    eexists. split; [reflexivity |].
    repeat split; unfold get; simplify_map_eq; reflexivity.
  - rewrite (hasOwnProperty_None _ _ Hlm).
    eexists. split; [reflexivity |].
    repeat split; unfold get; simplify_map_eq; reflexivity.
Qed.

Lemma decode_decrypted (P : platform) (key : jwk) (record payload : obj) :
  truthy (get record "content") = true ->
  get record "kid" = VString (kid key) ->
  (decrypt P key (ToString (get record "content"))).1 = Resolved (PObject payload) ->
  decode P key record
  = (Resolved (PObject (decoded_note record payload)),
     [CallDecrypt (shared_key key) (ToString (get record "content"))]).
Proof.
  intros Hcontent Hkid Hdecrypt.
  unfold decode. rewrite Hcontent, Hkid, strict_eq_refl. simpl negb. cbv iota.
  unfold decrypt in *. simpl in Hdecrypt. rewrite Hdecrypt.
  unfold decoded_note, bind, lift, ret.
  destruct (hasOwnProperty record "last_modified"); simpl;
    match goal with
    | |- context [strict_eq ?a ?b] => destruct (strict_eq a b)
    end; reflexivity.
Qed.

Lemma lookup_decoded_note_last_modified (record payload : obj) :
  decoded_note record payload !! "last_modified"
  = match record !! "last_modified" with
    | Some t => Some t
    | None => payload !! "last_modified"
    end.
Proof.
  unfold decoded_note.
  destruct (record !! "last_modified") as [t|] eqn:Hlm.
  - rewrite (hasOwnProperty_Some _ _ _ Hlm).
    assert (get record "last_modified" = t) as -> by (unfold get; now rewrite Hlm).
    destruct (strict_eq _ _); now simplify_map_eq.
  - rewrite (hasOwnProperty_None _ _ Hlm).
    destruct (strict_eq _ _); now simplify_map_eq.
Qed.

Lemma get_decoded_note (record payload : obj) (p : string) :
  p <> "last_modified" -> p <> "deleted" ->
  get (decoded_note record payload) p = get payload p.
Proof.
  intros Hlm Hdel. unfold decoded_note.
  destruct (hasOwnProperty record "last_modified");
    destruct (strict_eq _ _);
    rewrite ?get_insert_ne by congruence; reflexivity.
Qed.

(** C1.  A note whose status is not [deleted] comes back from [encode] then
    [decode] under the same key with its id and its content, and with its
    [last_modified] unchanged whenever it has one. *)
Theorem encode_decode_round_trip (P : platform) (key : jwk) (n : obj) :
  platform_ok P ->
  get n "_status" <> VString "deleted" ->
  exists enc d,
    (encode P key n).1 = Resolved enc
    /\ (decode P key enc).1 = Resolved (PObject d)
    /\ get d "id" = get n "id"
    /\ get d "content" = get n "content"
    /\ (forall t, n !! "last_modified" = Some t -> d !! "last_modified" = Some t).
Proof.
  intros HP Hstatus.
  destruct (encode_spec P key n) as (enc & Henc & Hcontent & Hid & _ & Hkid & Hlm).
  exists enc, (decoded_note enc (drop_undefined n)).
  assert (Hdecode :
    decode P key enc
    = (Resolved (PObject (decoded_note enc (drop_undefined n))),
       [CallDecrypt (shared_key key) (ToString (get enc "content"))])).
  { apply decode_decrypted.
    - rewrite Hcontent. apply truthy_string, (jose_nonempty P HP).
    - exact Hkid.
    - rewrite Hcontent. unfold decrypt. simpl.
      rewrite (jose_round_trip P HP). apply (JSON_round_trip P HP). }
  rewrite Henc, Hdecode. simpl.
  repeat split.
  - rewrite get_decoded_note by discriminate. apply get_drop_undefined.
  - rewrite get_decoded_note by discriminate. apply get_drop_undefined.
  - intros t Ht. rewrite lookup_decoded_note_last_modified, Hlm, Ht. reflexivity.
Qed.

(** The round trip of [note_abc] under [key_2017] on the reference
    platform. *)
Lemma encode_decode_round_trip_witness :
  exists enc d,
    (encode Reference.platform Examples.key_2017 Examples.note_abc).1 = Resolved enc
    /\ (decode Reference.platform Examples.key_2017 enc).1 = Resolved (PObject d)
    /\ get d "id" = get Examples.note_abc "id"
    /\ get d "content" = get Examples.note_abc "content"
    /\ (forall t, Examples.note_abc !! "last_modified" = Some t ->
                  d !! "last_modified" = Some t).
Proof.
  apply (encode_decode_round_trip Reference.platform Examples.key_2017 Examples.note_abc).
  - exact ReferenceFacts.reference_platform_ok.
  - vm_compute. discriminate.
Defined.

(** C2.  A deleted note is encoded with the wire status [updated]; a
    tombstone of the store (no ciphertext, a deletion marker) is decoded to
    a note flagged as deleted, and the cipher is not called. *)
Theorem deletion_opacity (P : platform) (key : jwk) (n record : obj) :
  get n "_status" = VString "deleted" ->
  truthy (get record "content") = false ->
  truthy (get record "deleted") = true ->
  (exists enc,
      (encode P key n).1 = Resolved enc
      /\ enc !! "_status" = Some (VString "updated"))
  /\ (exists note,
        decode P key record = (Resolved (PObject note), [])
        /\ truthy (get note "deleted") = true).
Proof.
  intros Hstatus Hcontent Hdeleted. split.
  - destruct (encode_spec P key n) as (enc & Henc & _ & _ & Hwire & _).
    exists enc. rewrite Henc. split; [reflexivity |].
    rewrite Hwire. unfold wire_status. rewrite Hstatus. reflexivity.
  - exists record. split; [| exact Hdeleted].
    unfold decode. rewrite Hcontent, Hdeleted. reflexivity.
Qed.

(** A deleted note and a tombstone. *)
Lemma deletion_opacity_witness :
  (exists enc,
      (encode Reference.platform Examples.key_2017 Examples.note_deleted).1 = Resolved enc
      /\ enc !! "_status" = Some (VString "updated"))
  /\ (exists note,
        decode Reference.platform Examples.key_2017 Examples.tombstone
        = (Resolved (PObject note), [])
        /\ truthy (get note "deleted") = true).
Proof.
  apply (deletion_opacity Reference.platform Examples.key_2017
           Examples.note_deleted Examples.tombstone);
    vm_compute; reflexivity.
Defined.

Lemma compare_lex_lt (a b : string) : String.compare a b = Lt <-> lex_lt a b.
Proof.
  split.
  - revert b. induction a as [|c1 a IH]; intros [|c2 b]; simpl; try discriminate.
    + intros _. constructor.
    + unfold Ascii.compare.
      destruct (N.compare_spec (N_of_ascii c1) (N_of_ascii c2)) as [Heq|Hlt|Hgt];
        try discriminate.
      * intros Hab.
        assert (c1 = c2) as ->.
        { rewrite <- (ascii_N_embedding c1), <- (ascii_N_embedding c2). now rewrite Heq. }
        apply lex_lt_tail, IH, Hab.
      * intros _. now apply lex_lt_head.
  - induction 1 as [c s|c1 c2 s1 s2 Hlt|c s1 s2 _ IH]; simpl.
    + reflexivity.
    + unfold Ascii.compare. now rewrite (proj2 (N.compare_lt_iff _ _) Hlt).
    + unfold Ascii.compare. now rewrite N.compare_refl.
Qed.

Lemma ltb_lex_lt (a b : string) : String.ltb a b = true <-> lex_lt a b.
Proof.
  rewrite <- compare_lex_lt. unfold String.ltb.
  destruct (String.compare a b); split; congruence.
Qed.

Lemma compare_refl (a : string) : String.compare a a = Eq.
Proof.
  induction a as [|c a IH]; simpl; [reflexivity |].
  unfold Ascii.compare. now rewrite N.compare_refl.
Qed.

Lemma lex_lt_irrefl (a : string) : ~ lex_lt a a.
Proof. rewrite <- compare_lex_lt, compare_refl. discriminate. Qed.

Lemma lex_lt_asym (a b : string) : lex_lt a b -> ~ lex_lt b a.
Proof.
  rewrite <- !compare_lex_lt, (String.compare_antisym a b).
  destruct (String.compare b a); simpl; congruence.
Qed.

(** C3.  On records with ciphertext whose key tag is a string: a tag
    lexicographically after the active key's makes [decode] fail with
    [ServerKeyNewerError], a tag before it with [ServerKeyOlderError], both
    before any call to the cipher; with the same tag [decode] calls the
    cipher, and then fails only on ciphertext or format grounds. *)
Theorem key_version_ordering (P : platform) (key : jwk)
    (newer older same : obj) (tag_newer tag_older : string) :
  truthy (get newer "content") = true ->
  get newer "kid" = VString tag_newer ->
  lex_lt (kid key) tag_newer ->
  truthy (get older "content") = true ->
  get older "kid" = VString tag_older ->
  lex_lt tag_older (kid key) ->
  truthy (get same "content") = true ->
  get same "kid" = VString (kid key) ->
  decode P key newer = (Rejected new_ServerKeyNewerError, [])
  /\ decode P key older = (Rejected new_ServerKeyOlderError, [])
  /\ (decode P key same).2
     = [CallDecrypt (shared_key key) (ToString (get same "content"))]
  /\ (forall e,
        (decode P key same).1 = Rejected e ->
        ciphertext_or_format_failure P key (ToString (get same "content")) e).
Proof.
  intros Hcontent1 Hkid1 Hlt1 Hcontent2 Hkid2 Hlt2 Hcontent Hkid.
  split; [| split].
  - unfold decode. rewrite Hcontent1, Hkid1. simpl negb. cbv iota.
    rewrite strict_eq_false.
    2:{ intros [= ->]. exact (lex_lt_irrefl _ Hlt1). }
    simpl. now rewrite (proj2 (ltb_lex_lt _ _) Hlt1).
  - unfold decode. rewrite Hcontent2, Hkid2. simpl negb. cbv iota.
    rewrite strict_eq_false.
    2:{ intros [= ->]. exact (lex_lt_irrefl _ Hlt2). }
    simpl. destruct (String.ltb (kid key) tag_older) eqn:Hltb; [| reflexivity].
    apply ltb_lex_lt in Hltb. destruct (lex_lt_asym _ _ Hlt2 Hltb).
  - unfold decode. rewrite Hcontent, Hkid, strict_eq_refl.
    simpl negb. cbv iota.
    unfold decrypt, ciphertext_or_format_failure, bind, lift, ret.
    destruct (jose_decrypt P (shared_key key) (ToString (get same "content")))
      as [s|e0] eqn:Hjose; [| split; [reflexivity | intros e [= <-]; now left]].
    destruct (JSON_parse P s) as [[o|v]|e0] eqn:Hparse.
    + destruct (hasOwnProperty same "last_modified"); simpl;
        destruct (strict_eq _ _); simpl; (split; [reflexivity | discriminate]).
    + destruct (hasOwnProperty same "last_modified"); simpl.
      * split; [reflexivity |]. intros e [= <-]. right; right. now exists s, v.
      * destruct v as [| |b|n|str]; simpl;
          (split; [reflexivity |]);
          try discriminate;
          intros e [= <-]; right; right; eexists s, _; eauto.
    + split; [reflexivity |]. intros e [= <-]. right; left. now exists s.
Qed.

(** The key of 2017 reading a record of 2018, a record of 2016 and one of
    its own. *)
Lemma key_version_ordering_witness :
  decode Reference.platform Examples.key_2017 Examples.record_of_2018
  = (Rejected new_ServerKeyNewerError, [])
  /\ decode Reference.platform Examples.key_2017 Examples.record_of_2016
     = (Rejected new_ServerKeyOlderError, [])
  /\ (decode Reference.platform Examples.key_2017 Examples.record_abc).2
     = [CallDecrypt (shared_key Examples.key_2017)
          (ToString (get Examples.record_abc "content"))]
  /\ (forall e,
        (decode Reference.platform Examples.key_2017 Examples.record_abc).1
        = Rejected e ->
        ciphertext_or_format_failure Reference.platform Examples.key_2017
          (ToString (get Examples.record_abc "content")) e).
Proof.
  apply (key_version_ordering Reference.platform Examples.key_2017
           Examples.record_of_2018 Examples.record_of_2016 Examples.record_abc
           "20180312" "20160923");
    try (vm_compute; reflexivity);
    apply ltb_lex_lt; vm_compute; reflexivity.
Defined.

(** C4, as the code has it.  Once the payload of a record is decrypted,
    the decoded note carries the envelope's [last_modified] whenever the
    envelope has one, whatever the payload carries; when the envelope has
    none, the note keeps the [last_modified] of the payload. *)
Theorem decode_last_modified (P : platform) (key : jwk) (record payload : obj) :
  truthy (get record "content") = true ->
  get record "kid" = VString (kid key) ->
  (decrypt P key (ToString (get record "content"))).1 = Resolved (PObject payload) ->
  exists d,
    (decode P key record).1 = Resolved (PObject d)
    /\ d !! "last_modified"
       = match record !! "last_modified" with
         | Some t => Some t
         | None => payload !! "last_modified"
         end.
Proof.
  intros Hcontent Hkid Hdecrypt.
  exists (decoded_note record payload).
  rewrite (decode_decrypted P key record payload Hcontent Hkid Hdecrypt).
  split; [reflexivity | apply lookup_decoded_note_last_modified].
Qed.

(** The record of [note_abc] after a later write on the server: the
    envelope's timestamp wins over the payload's. *)
Lemma decode_last_modified_witness :
  exists d,
    (decode Reference.platform Examples.key_2017 Examples.record_abc_later).1
    = Resolved (PObject d)
    /\ d !! "last_modified"
       = match Examples.record_abc_later !! "last_modified" with
         | Some t => Some t
         | None => drop_undefined Examples.note_abc !! "last_modified"
         end.
Proof.
  apply (decode_last_modified Reference.platform Examples.key_2017
           Examples.record_abc_later (drop_undefined Examples.note_abc));
    vm_compute; reflexivity.
Defined.

(** C4, as the specification has it, fails.  [encode] encrypts the whole
    note, its [last_modified] included; and on the record of [note_abc]
    without a timestamp in the envelope, [decode] returns the timestamp of
    the payload, not none. *)
Lemma last_modified_counterexample :
  (exists plaintext payload,
      (encode Reference.platform Examples.key_2017 Examples.note_abc).2
      = [CallEncrypt (shared_key Examples.key_2017) plaintext]
      /\ JSON_parse Reference.platform plaintext = Resolved (PObject payload)
      /\ payload !! "last_modified" = Some (VNumber 1507000000000))
  /\ Examples.record_abc_bare !! "last_modified" = None
  /\ (exists d,
        (decode Reference.platform Examples.key_2017 Examples.record_abc_bare).1
        = Resolved (PObject d)
        /\ d !! "last_modified" = Some (VNumber 1507000000000))
  /\ ~ last_modified_is_the_envelope's Reference.platform Examples.key_2017
        Examples.record_abc_bare.
Proof.
  assert (Hdecode : exists d,
    (decode Reference.platform Examples.key_2017 Examples.record_abc_bare).1
    = Resolved (PObject d)
    /\ d !! "last_modified" = Some (VNumber 1507000000000)).
  { eexists. split; vm_compute; reflexivity. }
  split; [| split; [| split]].
  - eexists _, _. repeat split; vm_compute; reflexivity.
  - vm_compute; reflexivity.
  - exact Hdecode.
  - intros Hclaim. destruct Hdecode as (d & Hd & Hlm).
    specialize (Hclaim d Hd). rewrite Hlm in Hclaim. vm_compute in Hclaim.
    discriminate.
Qed.

End TransformerFacts.

(** ** The events of a sync cycle *)

Module CycleFacts.
Import Transformer Sync Trace.
#[local] Open Scope list_scope.

Section WithEnv.
Context {St : Type} {credentials : Credentials St}.
Variable E : env.

Lemma cycle_of_refl (w : world St) : cycle_of w w [].
Proof. repeat split. simpl. now rewrite app_nil_r. Qed.

Lemma cycle_of_trans (w w1 w2 : world St) (d1 d2 : list event) :
  cycle_of w w1 d1 -> cycle_of w1 w2 d2 -> cycle_of w w2 (d1 ++ d2).
Proof.
  intros (Ht1 & Hc1 & Hf1) (Ht2 & Hc2 & Hf2). repeat split.
  - now rewrite Ht2, Ht1, app_assoc.
  - rewrite forallb_app, Hc1, Hc2. reflexivity.
  - unfold conflict_resolved in *. rewrite existsb_app, Hf2, Hf1.
    destruct (existsb sets_conflict d1), (existsb sets_conflict d2); reflexivity.
Qed.

Lemma extends_refl (w : world St) : extends w w.
Proof. exists []. apply cycle_of_refl. Qed.

Lemma extends_trans (w w1 w2 : world St) : extends w w1 -> extends w1 w2 -> extends w w2.
Proof. intros [d1 H1] [d2 H2]. exists (d1 ++ d2). eapply cycle_of_trans; eauto. Qed.

Lemma extends_log (e : event) (w0 w : world St) :
  cycle_event e = true -> sets_conflict e = false ->
  extends w0 w -> extends w0 (log e w).
Proof.
  intros He Hs H. eapply extends_trans; [exact H |].
  exists [e]. repeat split; simpl.
  - now rewrite He.
  - unfold conflict_resolved. simpl. now rewrite Hs.
Qed.

Lemma extends_set_conflict (w0 w : world St) :
  extends w0 w -> extends w0 (set_conflict true w).
Proof.
  intros H. eapply extends_trans; [exact H |].
  exists [SetConflict true]. repeat split.
Qed.

Lemma extends_set_storage (s : St) (w0 w : world St) :
  extends w0 w -> extends w0 (set_storage s w).
Proof.
  intros H. eapply extends_trans; [exact H |].
  exists []. repeat split. simpl. now rewrite app_nil_r.
Qed.

Lemma extends_reconnectSync (w0 w : world St) :
  extends w0 w -> extends w0 (reconnectSync w).
Proof.
  intros H. unfold reconnectSync.
  repeat first [ apply extends_log; [reflexivity | reflexivity |]
               | apply extends_set_storage ].
  exact H.
Qed.

(** Peels the writes of a world expression down to a world known to extend
    the starting one. *)
Ltac extends_step :=
  first [ assumption
        | apply extends_refl
        | apply extends_log; [reflexivity | reflexivity |]
        | apply extends_set_conflict
        | apply extends_set_storage
        | apply extends_reconnectSync ].
Ltac extends_steps := repeat extends_step.

Lemma resolution_of_extends (c : conflict) (published : list obj) (w0 w : world St) :
  extends w0 w -> extends w0 (resolution_of E c published w).2.
Proof.
  intros H. unfold resolution_of.
  destruct (remote c) as [r|]; [| destruct (local c); simpl; exact H].
  destruct (strict_eq (get r "id") (VString "singleNote")).
  - destruct (find_wasSingleNote published) as [[i note]|]; simpl; [| exact H].
    extends_steps.
  - destruct (local c); simpl; [| exact H]. extends_steps.
Qed.

Lemma conflict_callback_extends (c : conflict) (published : list obj) (w0 w : world St) :
  extends w0 w -> extends w0 (conflict_callback E c published w).2.
Proof.
  intros H. unfold conflict_callback.
  pose proof (resolution_of_extends c published w0 w H) as Hres.
  destruct (resolution_of E c published w) as [[[resolution|e] published'] w'];
    simpl in *; extends_steps.
Qed.

Lemma map_conflicts_extends (cs : list conflict) :
  forall (published : list obj) (w0 w : world St),
    extends w0 w -> extends w0 (map_conflicts E cs published w).2.
Proof.
  induction cs as [|c cs IH]; intros published w0 w H; simpl; [exact H |].
  pose proof (conflict_callback_extends c published w0 w H) as Hcb.
  destruct (conflict_callback E c published w) as [[[p|e] published'] w'];
    simpl in *; [| exact Hcb].
  specialize (IH published' w0 w' Hcb).
  destruct (map_conflicts E cs published' w') as [[[ps|e] published''] w''];
    simpl in *; exact IH.
Qed.

Lemma map_conflicts_extends_eq (cs : list conflict) (published published' : list obj)
    (w0 w w' : world St) (r : outcome (list (outcome unit))) :
  map_conflicts E cs published w = (r, published', w') ->
  extends w0 w -> extends w0 w'.
Proof.
  intros Heq H. pose proof (map_conflicts_extends cs published w0 w H) as Hm.
  now rewrite Heq in Hm.
Qed.

Lemma attempt_extends (retry : world St -> option (outcome value * world St))
    (received : credential) (w0 w w' : world St) (r : outcome value) (vars : locals) :
  retry_extends retry ->
  attempt E retry received w = Some (r, vars, w') ->
  extends w0 w -> extends w0 w'.
Proof.
  intros Hretry Hattempt H. unfold attempt in Hattempt.
  repeat case_match; simplify_eq; extends_steps;
    try (eapply extends_trans; [| eapply Hretry; eassumption]);
    try (eapply map_conflicts_extends_eq; [eassumption |]);
    extends_steps.
Qed.

Lemma handle_error_extends (retry : world St -> option (outcome value * world St))
    (vars : locals) (e : error) (w0 w w' : world St) (r : outcome value) :
  retry_extends retry ->
  handle_error E retry vars e w = Some (r, w') ->
  extends w0 w -> extends w0 w'.
Proof.
  intros Hretry Hhandle H. unfold handle_error in Hhandle.
  repeat case_match; simplify_eq; extends_steps;
    try (eapply extends_trans; [| eapply Hretry; eassumption]);
    extends_steps.
Qed.

(** A cycle only produces cycle events, and leaves [client.conflict] alone
    unless it resolves a conflict by a merge. *)
Lemma syncKinto_extends (fuel : nat) :
  forall (w w' : world St) (r : outcome value),
    syncKinto E fuel w = Some (r, w') -> extends w w'.
Proof.
  induction fuel as [|fuel IH]; intros w w' r Hsync; [discriminate |].
  simpl in Hsync. unfold cycle in Hsync. simpl in Hsync.
  assert (Hretry : retry_extends (syncKinto E fuel)) by (intros ? ? ?; apply IH).
  assert (H0 : extends w (log CredentialsGet w)) by extends_steps.
  destruct (credentials_get (storage w)) as [received|]; [| now simplify_eq].
  destruct (attempt E (syncKinto E fuel) received (log CredentialsGet w))
    as [[[[v|e] vars] w1]|] eqn:Hattempt; [| | discriminate].
  - simplify_eq. eapply attempt_extends; eauto.
  - eapply handle_error_extends; [exact Hretry | exact Hsync |].
    eapply attempt_extends; eauto.
Qed.

End WithEnv.

End CycleFacts.

(** ** The conflict callback *)

Module ConflictFacts.
Import Transformer Sync.
#[local] Open Scope list_scope.

(** C5.  With the remote side absent the resolution is the id and the
    content of the local record and nothing else: no banner, no conflict
    flagged, nothing written; it is submitted as it is.  So the conflict
    with [remote: null] and [local: {id: "abc", content: "x"}] resolves to
    [{id: "abc", content: "x"}]. *)
Theorem remote_absent_local_wins {St : Type} (E : env) (c : conflict) (l : obj)
    (published : list obj) (w : world St) :
  remote c = None ->
  local c = Some l ->
  resolution_of E c published w
  = (Resolved (Some {[ "id" := get l "id"; "content" := get l "content" ]}),
     published, w)
  /\ (conflict_callback E c published w).2
     = log (CollectionResolve c
              (Some {[ "id" := get l "id"; "content" := get l "content" ]})) w
  /\ resolution_of E Examples.conflict_remote_null published w
     = (Resolved (Some {[ "id" := VString "abc"; "content" := VString "x" ]}),
        published, w).
Proof.
  intros Hremote Hlocal. unfold conflict_callback, resolution_of.
  rewrite Hremote, Hlocal. repeat split.
Qed.

(** The third scenario of the specification. *)
Lemma remote_absent_local_wins_witness :
  resolution_of Examples.quiet Examples.conflict_remote_null [] Examples.fresh
  = (Resolved (Some {[ "id" := VString "abc"; "content" := VString "x" ]}),
     [], Examples.fresh).
Proof.
  apply (remote_absent_local_wins Examples.quiet Examples.conflict_remote_null
           Examples.local_abc [] Examples.fresh); reflexivity.
Defined.

(** C6.  With a remote side that is not the single-note sentinel, the
    resolution has the id of the remote record, and for content the remote
    content, then the banner [<p>mergeWarning</p>], then the local content,
    in that order; it is what the callback submits, after flagging the
    conflict.  The three are joined by [+=] on a string: a content that is
    not a string enters as its text. *)
Theorem merge_keeps_both {St : Type} (E : env) (c : conflict) (l r : obj)
    (published : list obj) (w : world St) :
  remote c = Some r ->
  get r "id" <> VString "singleNote" ->
  local c = Some l ->
  resolution_of E c published w
  = (Resolved (Some {[ "id" := get r "id";
                       "content" := VString (ToString (get r "content")
                                             +:+ "<p>" +:+ mergeWarning E +:+ "</p>"
                                             +:+ ToString (get l "content")) ]}),
     published,
     log (SendMetrics "handle-conflict") (set_conflict true w))
  /\ (conflict_callback E c published w).2
     = log (CollectionResolve c
              (Some {[ "id" := get r "id";
                       "content" := VString (ToString (get r "content")
                                             +:+ "<p>" +:+ mergeWarning E +:+ "</p>"
                                             +:+ ToString (get l "content")) ]}))
         (log (SendMetrics "handle-conflict") (set_conflict true w)).
Proof.
  intros Hremote Hid Hlocal.
  assert (Hresolution : resolution_of E c published w
    = (Resolved (Some {[ "id" := get r "id";
                         "content" := VString (ToString (get r "content")
                                               +:+ "<p>" +:+ mergeWarning E +:+ "</p>"
                                               +:+ ToString (get l "content")) ]}),
       published,
       log (SendMetrics "handle-conflict") (set_conflict true w))).
  { unfold resolution_of. rewrite Hremote, Hlocal.
    rewrite TransformerFacts.strict_eq_false by exact Hid.
    unfold banner. cbv zeta.
    now rewrite !ReferenceFacts.append_assoc. }
  split; [exact Hresolution |].
  unfold conflict_callback. rewrite Hresolution. reflexivity.
Qed.

(** Two edits of the note [abc]. *)
Lemma merge_keeps_both_witness :
  resolution_of Examples.quiet Examples.conflict_abc [] Examples.fresh
  = (Resolved (Some {[ "id" := VString "abc";
                       "content" := VString "<p>theirs</p><p>Your notes were merged</p>x" ]}),
     [],
     log (SendMetrics "handle-conflict") (set_conflict true Examples.fresh))
  /\ (conflict_callback Examples.quiet Examples.conflict_abc [] Examples.fresh).2
     = log (CollectionResolve Examples.conflict_abc
              (Some {[ "id" := VString "abc";
                       "content" := VString "<p>theirs</p><p>Your notes were merged</p>x" ]}))
         (log (SendMetrics "handle-conflict") (set_conflict true Examples.fresh)).
Proof.
  apply (merge_keeps_both Examples.quiet Examples.conflict_abc
           Examples.local_abc Examples.remote_abc [] Examples.fresh);
    try reflexivity.
  vm_compute. discriminate.
Defined.

Lemma find_wasSingleNote_written (published : list obj) (i : nat) (note : obj)
    (content : value) :
  find_wasSingleNote published = Some (i, note) ->
  find_wasSingleNote (<[i := <["content" := content]> note]> published)
  = Some (i, <["content" := content]> note).
Proof.
  unfold find_wasSingleNote. rewrite !list_find_Some.
  intros (Hi & Hnote & Hfirst). split; [| split].
  - apply list_lookup_insert_eq. eapply lookup_lt_Some, Hi.
  - now rewrite TransformerFacts.get_insert_ne by discriminate.
  - intros j y Hj Hlt. rewrite list_lookup_insert_ne in Hj by lia. eauto.
Qed.

(** C7, as the code has it.  Resolving the sentinel conflict writes the
    merge text (remote content, then banner) in front of the content of the
    was-single-note record, in place, whatever the world it runs in: from
    the same records it writes the same content.  It does not recognise its
    own result: run again on the records it wrote, it writes the merge text
    in front once more. *)
Theorem migration_merges_again {St : Type} (E : env) (c : conflict) (r : obj)
    (published : list obj) (i : nat) (note : obj) :
  remote c = Some r ->
  get r "id" = VString "singleNote" ->
  find_wasSingleNote published = Some (i, note) ->
  let merge_text := ToString (get r "content") +:+ banner E in
  let once :=
    <["content" := VString (merge_text +:+ ToString (get note "content"))]> note in
  let twice :=
    <["content" := VString (merge_text +:+ merge_text
                            +:+ ToString (get note "content"))]> note in
  (forall w' : world St, (resolution_of E c published w').1
              = (Resolved (local c), <[i := once]> published))
  /\ (forall w' : world St, (resolution_of E c (<[i := once]> published) w').1
                 = (Resolved (local c), <[i := twice]> published)).
Proof.
  intros Hremote Hid Hfind merge_text once twice.
  assert (Hstep : forall published' note' (w' : world St),
    find_wasSingleNote published' = Some (i, note') ->
    (resolution_of E c published' w').1
    = (Resolved (local c),
       <[i := <["content" := VString (merge_text +:+ ToString (get note' "content"))]>
                note']> published')).
  { intros published' note' w' Hfind'. unfold resolution_of.
    rewrite Hremote, Hid, TransformerFacts.strict_eq_refl, Hfind'. reflexivity. }
  split; intros w'.
  - apply Hstep, Hfind.
  - rewrite (Hstep _ once w') by now apply find_wasSingleNote_written.
    rewrite list_insert_insert_eq. unfold once, twice.
    rewrite TransformerFacts.get_insert_eq, insert_insert_eq. reflexivity.
Qed.

(** The migration of the examples, resolved and resolved again. *)
Lemma migration_merges_again_witness :
  let merge_text := "<p>old</p>" +:+ banner Examples.quiet in
  (forall w' : world (gmap string credential),
      (resolution_of Examples.quiet Examples.conflict_singleNote
         Examples.published_after_migration w').1
      = (Resolved (Some Examples.local_singleNote),
         [<["content" := VString (merge_text +:+ "<p>new</p>")]> Examples.successor]))
  /\ (forall w' : world (gmap string credential),
        (resolution_of Examples.quiet Examples.conflict_singleNote
           [<["content" := VString (merge_text +:+ "<p>new</p>")]> Examples.successor]
           w').1
        = (Resolved (Some Examples.local_singleNote),
           [<["content" := VString (merge_text +:+ merge_text +:+ "<p>new</p>")]>
              Examples.successor])).
Proof.
  apply (migration_merges_again (St := gmap string credential)
           Examples.quiet Examples.conflict_singleNote
           Examples.remote_singleNote Examples.published_after_migration
           0 Examples.successor);
    reflexivity.
Defined.

(** C7, as the specification has it, fails.  After the first resolution the
    successor of the single note reads old, banner, new; after the second,
    old, banner, old, banner, new. *)
Lemma migration_counterexample :
  (resolution_of Examples.quiet Examples.conflict_singleNote
     Examples.published_after_migration Examples.fresh).1.2
  = [<["content" :=
         VString "<p>old</p><p>Your notes were merged</p><p>new</p>"]>
       Examples.successor]
  /\ (resolution_of Examples.quiet Examples.conflict_singleNote
        (resolution_of Examples.quiet Examples.conflict_singleNote
           Examples.published_after_migration Examples.fresh).1.2
        (resolution_of Examples.quiet Examples.conflict_singleNote
           Examples.published_after_migration Examples.fresh).2).1.2
     = [<["content" :=
            VString ("<p>old</p><p>Your notes were merged</p>"
                     +:+ "<p>old</p><p>Your notes were merged</p><p>new</p>")]>
          Examples.successor]
  /\ ~ migration_is_idempotent Examples.quiet Examples.conflict_singleNote
        Examples.published_after_migration Examples.fresh.
Proof.
  split; [| split].
  - vm_compute. reflexivity.
  - vm_compute. reflexivity.
  - unfold migration_is_idempotent. vm_compute. discriminate.
Qed.

End ConflictFacts.

(** ** The cycle, load and save *)

Module SyncFacts.
Import Transformer Sync Trace CycleFacts.
#[local] Open Scope list_scope.

Lemma cycle_has_no_kinto_loaded (events : list event) :
  forallb cycle_event events = true -> kinto_loaded_messages events = [].
Proof.
  induction events as [|e events IH]; [reflexivity |].
  simpl. intros [He Hrest]%andb_prop. unfold kinto_loaded_messages in *. simpl.
  rewrite (IH Hrest). destruct e as [| | | | | | | | | | | |[]| |]; try reflexivity; discriminate.
Qed.


Section WithEnv.
Context {St : Type} {credentials : Credentials St} {credentials_ok : CredentialsOk St}.
Variable E : env.

(** More fuel does not change how a cycle settles. *)
Lemma syncKinto_more_fuel (fuel : nat) :
  forall (fuel' : nat) (w : world St) (settled : outcome value * world St),
    fuel <= fuel' ->
    syncKinto E fuel w = Some settled ->
    syncKinto E fuel' w = Some settled.
Proof.
  induction fuel as [|fuel IH]; intros [|fuel'] w settled Hle Hsync;
    try discriminate; try lia.
  simpl in *. unfold cycle in *. simpl in *.
  assert (Hretry : forall w x, syncKinto E fuel w = Some x -> syncKinto E fuel' w = Some x)
    by (intros; apply IH; [lia | assumption]).
  destruct (credentials_get (storage w)) as [received|]; [| exact Hsync].
  assert (Hattempt : forall y,
    attempt E (syncKinto E fuel) received (log CredentialsGet w) = Some y ->
    attempt E (syncKinto E fuel') received (log CredentialsGet w) = Some y).
  { intros y. unfold attempt. repeat case_match; simplify_eq; try congruence;
      intros; simplify_eq;
      repeat match goal with
             | H : syncKinto E fuel _ = Some _ |- _ => apply Hretry in H
             end; congruence. }
  destruct (attempt E (syncKinto E fuel) received (log CredentialsGet w))
    as [[[[v|e] vars] w1]|] eqn:Ha; [| | discriminate];
    rewrite (Hattempt _ eq_refl); [exact Hsync |].
  revert Hsync. unfold handle_error. repeat case_match; auto.
Qed.

Lemma syncs_app (a b : list event) : syncs (a ++ b) = syncs a + syncs b.
Proof. unfold syncs. now rewrite List.filter_app, length_app. Qed.

Lemma syncs_log (e : event) (w : world St) :
  syncs (trace (log e w)) = syncs (trace w) + (if is_CollectionSync e then 1 else 0).
Proof. simpl. rewrite syncs_app. unfold syncs. simpl. now destruct (is_CollectionSync e). Qed.

Lemma extends_syncs (w w' : world St) : extends w w' -> syncs (trace w) <= syncs (trace w').
Proof. intros (events & Htrace & _). rewrite Htrace, syncs_app. lia. Qed.

(** The handler settles when the failure does not restart the cycle, or
    when there is no collection to reset, or when the restart settles. *)
Lemma handle_error_settles (retry : world St -> option (outcome value * world St))
    (vars : locals) (e : error) (w : world St) :
  restarting e = false
  \/ l_collection vars = false
  \/ (forall w', syncs (trace w) <= syncs (trace w') -> is_Some (retry w')) ->
  is_Some (handle_error E retry vars e w).
Proof.
  intros H. unfold handle_error, restarting in *.
  repeat case_match; try (eexists; reflexivity); simpl in *;
    destruct H as [H|[H|H]]; try discriminate; try congruence;
    apply H; rewrite !syncs_log; simpl; lia.
Qed.

(** The chain settles when the store's answer is calm, or when the restart
    settles; its rejection is then one the handler settles on. *)
Lemma attempt_settles (n : nat) (retry : world St -> option (outcome value * world St))
    (received : credential) (w : world St) :
  settles_after E n ->
  retry_extends retry ->
  n <= syncs (trace w)
  \/ (forall w', syncs (trace w) < syncs (trace w') -> is_Some (retry w')) ->
  exists r vars w1,
    attempt E retry received w = Some (r, vars, w1)
    /\ match r with
       | Resolved _ => True
       | Rejected e =>
           restarting e = false
           \/ l_collection vars = false
           \/ (forall w', syncs (trace w1) <= syncs (trace w') -> is_Some (retry w'))
       end.
Proof.
  intros Hsettles Hextends Hretry. unfold attempt.
  destruct (fxaRenewCredential E (trace w) received) as [renewed|e];
    [| eexists _, _, _; split; [reflexivity | simpl; auto]].
  set (w1 := log (CredentialsSet renewed)
               (set_storage (credentials_set renewed (storage (log (RenewCredential received) w)))
                  (log (RenewCredential received) w))).
  assert (Hw1 : syncs (trace w1) = syncs (trace w)).
  { unfold w1. rewrite syncs_log. simpl. unfold set_storage. simpl.
    change (trace w ++ [RenewCredential received])
      with (trace (log (RenewCredential received) w)).
    rewrite syncs_log. simpl. lia. }
  assert (Hafter : forall w2,
    extends (log (CollectionSync renewed) w1) w2 ->
    (forall w', syncs (trace w) < syncs (trace w') -> is_Some (retry w')) ->
    forall w', syncs (trace w2) <= syncs (trace w') -> is_Some (retry w')).
  { intros w2 Hw2%extends_syncs Htotal w' Hle. apply Htotal.
    rewrite syncs_log in Hw2. cbn [is_CollectionSync] in Hw2. lia. }
  pose proof (Hsettles (trace w1) renewed) as Hcalm.
  destruct (collection_sync E (trace w1) renewed) as [result|e].
  - destruct (conflicts result) as [|c cs] eqn:Hconflicts;
      [eexists _, _, _; split; [reflexivity | exact I] |].
    destruct Hretry as [Hn|Htotal];
      [specialize (Hcalm ltac:(lia)); simpl in Hcalm; congruence |].
    destruct (map_conflicts E (c :: cs) (published result)
                (log (CollectionSync renewed) w1))
      as [[[promises|e] published'] w2] eqn:Hmap.
    + assert (Hw2 : extends (log (CollectionSync renewed) w1) w2)
        by (eapply map_conflicts_extends_eq; [exact Hmap | apply extends_refl]).
      destruct (Promise_all promises) as [[]|e].
      * destruct (Htotal w2) as [[r w3] Hr].
        { apply extends_syncs in Hw2. rewrite syncs_log in Hw2.
          cbn [is_CollectionSync] in Hw2. lia. }
        rewrite Hr. eexists _, _, _. split; [reflexivity |].
        destruct r as [v|e]; [exact I |]. right; right.
        apply Hafter; [| exact Htotal].
        eapply extends_trans; [exact Hw2 | eapply Hextends, Hr].
      * eexists _, _, _. split; [reflexivity |]. right; right. now apply Hafter.
    + eexists _, _, _. split; [reflexivity |]. right; right.
      apply Hafter; [| exact Htotal].
      eapply map_conflicts_extends_eq; [exact Hmap | apply extends_refl].
  - eexists _, _, _. split; [reflexivity |].
    destruct Hretry as [Hn|Htotal].
    + left. apply Hcalm. lia.
    + right; right. apply Hafter; [apply extends_refl | exact Htotal].
Qed.

Lemma cycle_settles (n : nat) (retry : world St -> option (outcome value * world St))
    (w : world St) :
  settles_after E n ->
  retry_extends retry ->
  n <= syncs (trace w)
  \/ (forall w', syncs (trace w) < syncs (trace w') -> is_Some (retry w')) ->
  is_Some (cycle E retry w).
Proof.
  intros Hsettles Hextends Hretry. unfold cycle. simpl.
  destruct (credentials_get (storage w)) as [received|]; [| eexists; reflexivity].
  destruct (attempt_settles n retry received (log CredentialsGet w) Hsettles Hextends)
    as (r & vars & w1 & -> & Hr).
  { rewrite syncs_log. simpl. rewrite Nat.add_0_r. exact Hretry. }
  destruct r as [v|e]; [eexists; reflexivity |].
  now apply handle_error_settles.
Qed.

(** Enough fuel: when the store's [sync] is calm from its [n]-th call on,
    a cycle settles within [n] restarts. *)
Lemma syncKinto_settles (n : nat) :
  settles_after E n ->
  forall (fuel : nat) (w : world St),
    n <= syncs (trace w) + fuel -> is_Some (syncKinto E (S fuel) w).
Proof.
  intros Hsettles. induction fuel as [|fuel IH]; intros w Hn.
  - change (is_Some (cycle E (syncKinto E 0) w)).
    apply (cycle_settles n); [exact Hsettles | | left; lia].
    intros w0 r w' [=].
  - change (is_Some (cycle E (syncKinto E (S fuel)) w)).
    apply (cycle_settles n); [exact Hsettles | |].
    + intros w0 r w'. apply syncKinto_extends.
    + right. intros w' Hlt. apply IH. lia.
Qed.

(** C8, as the code has it.  When the chain of a cycle ahead of its error
    handler (the renewal of the credential, the store's sync, the
    submission of the resolutions, the cycle restarted after them) rejects
    with a failure of HTTP status 401, the cycle resolves, having cleared
    the stored credential and sent [reconnect], and nothing after that: the
    sync is not invoked again. *)
Theorem unauthorized_reconnects (fuel : nat) (w w1 : world St) (received : credential)
    (e : error) (vars : locals) :
  credentials_get (storage w) = Some received ->
  attempt E (syncKinto E fuel) received (log CredentialsGet w)
  = Some (Rejected e, vars, w1) ->
  response_status e = Some 401%Z ->
  exists w',
    syncKinto E (S fuel) w = Some (Resolved VUndefined, w')
    /\ credentials_get (storage w') = None
    /\ trace w' = trace w1 ++ [CredentialsClear; SendMessage Reconnect].
Proof.
  intros Hcred Hattempt Hstatus.
  exists (reconnectSync w1). simpl. unfold cycle. simpl. rewrite Hcred, Hattempt.
  unfold handle_error. rewrite bool_decide_eq_true_2 by exact Hstatus.
  split; [reflexivity |]. split.
  - apply get_after_clear.
  - simpl. now rewrite <- app_assoc.
Qed.

(** C9, as the code has it.  Every load whose sync cycle settles, resolved
    or rejected, lists the local notes after the cycle and sends
    [kinto-loaded] exactly once, with the notes listed, or with [null] when
    the listing itself failed.  ([syncKinto_settles] says when the cycle
    settles.) *)
Theorem load_reports_once (fuel : nat) (w w1 : world St) (r : outcome value) :
  syncKinto E fuel w = Some (r, w1) ->
  exists w2 events notes,
    loadFromKinto E fuel w = Some w2
    /\ trace w2 = trace w ++ events
    /\ kinto_loaded_messages events = [KintoLoaded notes VNull]
    /\ notes = match collection_list E (trace w1) with
               | Resolved data => Some data
               | Rejected _ => None
               end.
Proof.
  intros Hsync.
  destruct (syncKinto_extends E fuel w w1 r Hsync) as (cycle & Htrace & Hcycle & _).
  unfold loadFromKinto, retrieveNote. rewrite Hsync.
  destruct (collection_list E (trace w1)) as [data|e];
    eexists _, (cycle ++ [CollectionList; SendMessage (KintoLoaded _ VNull)]), _;
    (split; [reflexivity |]); simpl; rewrite Htrace, <- !app_assoc;
    (split; [reflexivity |]);
    (split; [| reflexivity]);
    unfold kinto_loaded_messages; rewrite omap_app;
    fold (kinto_loaded_messages cycle);
    rewrite (cycle_has_no_kinto_loaded cycle Hcycle); reflexivity.
Qed.


End WithEnv.

(** The browser storage gives back what was set, and nothing once
    cleared. *)
#[global] Instance BrowserStorageCredentials_ok : CredentialsOk (gmap string credential).
Proof.
  split; simpl.
  - intros c s. apply lookup_insert_eq.
  - intros s. apply lookup_delete_eq.
Qed.

(** The second scenario of the specification: the store's sync is answered
    401. *)
Lemma unauthorized_reconnects_witness :
  exists w',
    syncKinto Examples.unauthorized 1 Examples.fresh = Some (Resolved VUndefined, w')
    /\ credentials_get (storage w') = None
    /\ trace w'
       = [CredentialsGet; RenewCredential Examples.signed_in;
          CredentialsSet Examples.signed_in; CollectionSync Examples.signed_in]
         ++ [CredentialsClear; SendMessage Reconnect].
Proof.
  apply (unauthorized_reconnects Examples.unauthorized 0 Examples.fresh
           (mkWorld Examples.signed_in_storage VUndefined
              [CredentialsGet; RenewCredential Examples.signed_in;
               CredentialsSet Examples.signed_in; CollectionSync Examples.signed_in])
           Examples.signed_in Examples.http_401 (mkLocals Examples.signed_in true));
    reflexivity.
Defined.

(** C8, as the specification has it, fails.  The sync fails with
    [ServerKeyOlderError], the handler asks the server to delete the
    collection, and the server answers 401: the cycle rejects with that
    failure, the credential is still stored and no [reconnect] has been
    sent. *)
Lemma unauthorized_counterexample :
  exists w',
    syncKinto Examples.rotated_then_unauthorized 3 Examples.fresh
    = Some (Rejected Examples.http_401, w')
    /\ deleteCollection Examples.rotated_then_unauthorized
         [CredentialsGet; RenewCredential Examples.signed_in;
          CredentialsSet Examples.signed_in; CollectionSync Examples.signed_in;
          ConsoleError new_ServerKeyOlderError] "token-1"
       = Rejected Examples.http_401
    /\ response_status Examples.http_401 = Some 401%Z
    /\ credentials_get (storage w') = Some Examples.signed_in
    /\ trace w'
       = [CredentialsGet; RenewCredential Examples.signed_in;
          CredentialsSet Examples.signed_in; CollectionSync Examples.signed_in;
          ConsoleError new_ServerKeyOlderError; DeleteCollection "token-1"]
    /\ ~ In (SendMessage Reconnect) (trace w')
    /\ ~ In CredentialsClear (trace w').
Proof.
  eexists. split; [vm_compute; reflexivity |].
  repeat split; simpl; intuition discriminate.
Qed.

(** Two servers whose sync calms down. *)
Lemma unauthorized_settles : settles_after Examples.unauthorized 0.
Proof. intros events c _. reflexivity. Qed.

Lemma conflict_once_settles : settles_after Examples.conflict_once 1.
Proof.
  intros events c Hsyncs. unfold syncs in Hsyncs. simpl.
  destruct (existsb is_CollectionSync events) eqn:Hex; [reflexivity |].
  exfalso. induction events as [|e events IH]; simpl in *; [lia |].
  destruct (is_CollectionSync e); simpl in *; [discriminate | auto].
Qed.

(** A load while the server answers 401: the cycle settles, and the notes
    are reported all the same. *)
Lemma load_reports_once_witness :
  exists w2 events notes,
    loadFromKinto Examples.unauthorized 1 Examples.fresh = Some w2
    /\ trace w2 = trace Examples.fresh ++ events
    /\ kinto_loaded_messages events = [KintoLoaded notes VNull]
    /\ notes = match collection_list Examples.unauthorized
                       [CredentialsGet; RenewCredential Examples.signed_in;
                        CredentialsSet Examples.signed_in;
                        CollectionSync Examples.signed_in;
                        CredentialsClear; SendMessage Reconnect] with
               | Resolved data => Some data
               | Rejected _ => None
               end.
Proof.
  apply (load_reports_once Examples.unauthorized 1 Examples.fresh
           (mkWorld (delete "credentials" Examples.signed_in_storage) VUndefined
              [CredentialsGet; RenewCredential Examples.signed_in;
               CredentialsSet Examples.signed_in; CollectionSync Examples.signed_in;
               CredentialsClear; SendMessage Reconnect])
           (Resolved VUndefined)).
  vm_compute. reflexivity.
Defined.

(** The cycle has no ceiling on its restarts: against a server that answers
    every sync with a flush, no amount of fuel lets it settle. *)
Lemma perpetual_flush_never_settles (fuel : nat) :
  forall w : world (gmap string credential),
    credentials_get (storage w) = Some Examples.signed_in ->
    syncKinto Examples.flushing fuel w = None.
Proof.
  induction fuel as [|fuel IH]; intros w Hcred; [reflexivity |].
  simpl in *. unfold cycle. simpl. rewrite Hcred. simpl.
  apply IH. simpl. apply lookup_insert_eq.
Qed.

(** C9, as the specification has it, fails.  The server answers every sync
    with the error of a flush: each time the handler resets the sync status
    and calls [syncKinto] again, so the cycle of the load never settles, the
    notes are never listed and [kinto-loaded] is never sent. *)
Lemma load_counterexample :
  credentials_get (storage Examples.fresh) = Some Examples.signed_in
  /\ (forall events c,
        collection_sync Examples.flushing events c
        = Rejected (new_Error "Server has been flushed."))
  /\ includes "flushed" "Server has been flushed." = true
  /\ (forall fuel, syncKinto Examples.flushing fuel Examples.fresh = None)
  /\ (forall fuel, loadFromKinto Examples.flushing fuel Examples.fresh = None)
  /\ ~ kinto_loaded_is_sent_once Examples.flushing Examples.fresh.
Proof.
  assert (Hnever : forall fuel, syncKinto Examples.flushing fuel Examples.fresh = None).
  { intros fuel. now apply perpetual_flush_never_settles. }
  split; [reflexivity |].
  split; [reflexivity |].
  split; [reflexivity |].
  split; [exact Hnever |].
  split.
  - intros fuel. unfold loadFromKinto. now rewrite Hnever.
  - intros (fuel & w' & events & Hload & _). unfold loadFromKinto in Hload.
    rewrite Hnever in Hload. discriminate.
Qed.



End SyncFacts.

(** ** The scenarios of the specification, run *)

Module Scenarios.
Import Transformer Sync Trace.
#[local] Open Scope list_scope.

(** Scenario 1: the sync reports no conflict and the save reports
    [conflict: false]. *)
Example save_without_conflict :
  later Examples.quiet 1 Examples.local_abc Examples.fresh
  = Some (mkWorld Examples.signed_in_storage (VBool false)
            [CollectionUpsert Examples.local_abc; SendMessage TextSaved;
             SetConflict false;
             CredentialsGet; RenewCredential Examples.signed_in;
             CredentialsSet Examples.signed_in; CollectionSync Examples.signed_in;
             CollectionList;
             SendMessage (TextSynced (Some [Examples.note_abc]) (VBool false))]).
Proof. vm_compute. reflexivity. Qed.

(** A cycle with one conflict: the merge is submitted and the cycle runs
    once more. *)
Example cycle_with_conflict :
  syncKinto Examples.conflict_once 2 Examples.fresh
  = Some (Resolved VUndefined,
          mkWorld Examples.signed_in_storage (VBool true)
            [CredentialsGet; RenewCredential Examples.signed_in;
             CredentialsSet Examples.signed_in; CollectionSync Examples.signed_in;
             SetConflict true; SendMetrics "handle-conflict";
             CollectionResolve Examples.conflict_abc (Some Examples.merged_abc);
             CredentialsGet; RenewCredential Examples.signed_in;
             CredentialsSet Examples.signed_in; CollectionSync Examples.signed_in]).
Proof. vm_compute. reflexivity. Qed.

(** Scenario 4: after [ServerKeyOlderError] the collection is deleted on
    the server, the sync status is reset and the cycle runs once more. *)
Example cycle_after_key_rotation :
  syncKinto Examples.rotated 2 Examples.fresh
  = Some (Resolved VUndefined,
          mkWorld Examples.signed_in_storage VUndefined
            [CredentialsGet; RenewCredential Examples.signed_in;
             CredentialsSet Examples.signed_in; CollectionSync Examples.signed_in;
             ConsoleError new_ServerKeyOlderError; DeleteCollection "token-1";
             CollectionResetSyncStatus;
             CredentialsGet; RenewCredential Examples.signed_in;
             CredentialsSet Examples.signed_in; CollectionSync Examples.signed_in]).
Proof. vm_compute. reflexivity. Qed.

(** A load while the server answers 401: the credential is cleared,
    [reconnect] is sent, and the notes are reported all the same. *)
Example load_while_unauthorized :
  loadFromKinto Examples.unauthorized 1 Examples.fresh
  = Some (mkWorld ∅ VUndefined
            [CredentialsGet; RenewCredential Examples.signed_in;
             CredentialsSet Examples.signed_in; CollectionSync Examples.signed_in;
             CredentialsClear; SendMessage Reconnect;
             CollectionList;
             SendMessage (KintoLoaded (Some [Examples.note_abc]) VNull)]).
Proof. vm_compute. reflexivity. Qed.

(** A load without network: the cycle rejects, the notes are reported. *)
Example load_while_offline :
  syncKinto Examples.offline 1 Examples.fresh
  = Some (Rejected Examples.network_error,
          mkWorld ∅ VUndefined
            [CredentialsGet; RenewCredential Examples.signed_in;
             CredentialsSet Examples.signed_in; CollectionSync Examples.signed_in;
             ConsoleError Examples.network_error;
             CredentialsClear; SendMessage Reconnect])
  /\ loadFromKinto Examples.offline 1 Examples.fresh
     = Some (mkWorld ∅ VUndefined
               [CredentialsGet; RenewCredential Examples.signed_in;
                CredentialsSet Examples.signed_in; CollectionSync Examples.signed_in;
                ConsoleError Examples.network_error;
                CredentialsClear; SendMessage Reconnect;
                CollectionList;
                SendMessage (KintoLoaded (Some [Examples.note_abc]) VNull)]).
Proof. split; vm_compute; reflexivity. Qed.

(** A load when the local notes cannot be listed either: [notes] is
    [null]. *)
Example load_total_failure :
  loadFromKinto Examples.offline_and_unreadable 1 Examples.fresh
  = Some (mkWorld ∅ VUndefined
            [CredentialsGet; RenewCredential Examples.signed_in;
             CredentialsSet Examples.signed_in; CollectionSync Examples.signed_in;
             ConsoleError Examples.network_error;
             CredentialsClear; SendMessage Reconnect;
             CollectionList;
             SendMessage (KintoLoaded None VNull)]).
Proof. vm_compute. reflexivity. Qed.

(** Without a credential the cycle is a no-op. *)
Lemma signed_out_is_a_no_op {St : Type} {credentials : Credentials St}
    (E : env) (fuel : nat) (w : world St) :
  credentials_get (storage w) = None ->
  syncKinto E (S fuel) w = Some (Resolved VUndefined, log CredentialsGet w).
Proof. intros Hcred. simpl. unfold cycle. simpl. now rewrite Hcred. Qed.

End Scenarios.

(** * Further properties of the code *)

(** ** The transformer, beyond the claims *)

Module TransformerMore.
Import Transformer Spec TransformerFacts.

(** X1.  The envelope [encode] returns has the properties [content], [id],
    [_status] and [kid], and [last_modified] exactly when the note has it,
    and no other: nothing else of the note is copied in clear.  Its
    [content] is the ciphertext, and its [_status] is never [deleted]. *)
Theorem envelope_hides_the_note (P : platform) (key : jwk) (record : obj) :
  exists enc,
    (encode P key record).1 = Resolved enc
    /\ dom enc
       = {[ "content"; "id"; "_status"; "kid" ]}
         ∪ (if hasOwnProperty record "last_modified"
            then {[ "last_modified" ]} else ∅)
    /\ get enc "content"
       = VString (jose_encrypt P (shared_key key) (JSON_stringify P record))
    /\ enc !! "_status" <> Some (VString "deleted").
Proof.
  destruct (encode_spec P key record) as (enc & Henc & Hcontent & _ & Hstatus & _).
  exists enc. rewrite Henc. split; [reflexivity |]. split; [| split].
  - clear Hcontent Hstatus. unfold encode, encrypt, bind, ret in Henc.
    destruct (hasOwnProperty record "last_modified");
      injection Henc as <-; rewrite ?dom_insert_L, dom_singleton_L; set_solver.
  - exact Hcontent.
  - rewrite Hstatus. unfold wire_status.
    destruct (truthy (get record "_status")) eqn:Htruthy.
    + unfold strict_eq. case_bool_decide as Hdel; congruence.
    + intros [= Hdel]. rewrite Hdel in Htruthy. discriminate.
Qed.

(** X2.  A record without ciphertext that is not a tombstone is refused:
    [decode] rejects with "No ciphertext: nothing to decrypt?" and does not
    call the cipher. *)
Theorem decode_without_ciphertext (P : platform) (key : jwk) (record : obj) :
  truthy (get record "content") = false ->
  truthy (get record "deleted") = false ->
  decode P key record = (Rejected (new_Error "No ciphertext: nothing to decrypt?"), []).
Proof. intros Hcontent Hdeleted. unfold decode. now rewrite Hcontent, Hdeleted. Qed.

Lemma decode_without_ciphertext_witness :
  decode Reference.platform Examples.key_2017 MoreExamples.record_emptied
  = (Rejected (new_Error "No ciphertext: nothing to decrypt?"), []).
Proof.
  apply (decode_without_ciphertext Reference.platform Examples.key_2017
           MoreExamples.record_emptied); reflexivity.
Defined.

(** X3.  A record with ciphertext but without a [kid] counts as written
    under an older key: [decode] rejects with [ServerKeyOlderError], before
    any call to the cipher. *)
Theorem decode_without_kid (P : platform) (key : jwk) (record : obj) :
  truthy (get record "content") = true ->
  record !! "kid" = None ->
  decode P key record = (Rejected new_ServerKeyOlderError, []).
Proof.
  intros Hcontent Hkid.
  assert (Hundefined : get record "kid" = VUndefined) by (unfold get; now rewrite Hkid).
  unfold decode. rewrite Hcontent, Hundefined. simpl.
  unfold JS.lt, ToNumber. now destruct (StringToNumber P (kid key)).
Qed.

Lemma decode_without_kid_witness :
  decode Reference.platform Examples.key_2017 MoreExamples.record_untagged
  = (Rejected new_ServerKeyOlderError, []).
Proof.
  apply (decode_without_kid Reference.platform Examples.key_2017
           MoreExamples.record_untagged); reflexivity.
Defined.

(** X4.  A note deleted on a client travels as an encrypted blob and comes
    back flagged: [decode] of its encoding returns its id and content, its
    [_status] still [deleted], and [deleted: true]. *)
Theorem deleted_note_round_trip (P : platform) (key : jwk) (n : obj) :
  platform_ok P ->
  get n "_status" = VString "deleted" ->
  exists enc d,
    (encode P key n).1 = Resolved enc
    /\ (decode P key enc).1 = Resolved (PObject d)
    /\ get d "deleted" = VBool true
    /\ get d "_status" = VString "deleted"
    /\ get d "id" = get n "id"
    /\ get d "content" = get n "content".
Proof.
  intros HP Hstatus.
  destruct (encode_spec P key n) as (enc & Henc & Hcontent & _ & _ & Hkid & _).
  exists enc, (decoded_note enc (drop_undefined n)).
  rewrite Henc, (decode_decrypted P key enc (drop_undefined n)); cycle 1.
  { rewrite Hcontent. apply truthy_string, (jose_nonempty P HP). }
  { exact Hkid. }
  { rewrite Hcontent. unfold decrypt. simpl.
    rewrite (jose_round_trip P HP). apply (JSON_round_trip P HP). }
  split; [reflexivity |]. split; [reflexivity |].
  assert (Hflagged : forall p, p <> "last_modified" -> p <> "deleted" ->
            get (decoded_note enc (drop_undefined n)) p = get n p).
  { intros p H1 H2. rewrite get_decoded_note by assumption. apply get_drop_undefined. }
  split; [| repeat split; try (apply Hflagged; discriminate);
             rewrite Hflagged by discriminate; exact Hstatus].
  unfold decoded_note.
  assert (Hd : forall o : obj, get o "_status" = VString "deleted" ->
            get (if strict_eq (get o "_status") (VString "deleted")
                 then <["deleted" := VBool true]> o else o) "deleted" = VBool true).
  { intros o Ho. rewrite Ho, strict_eq_refl. apply get_insert_eq. }
  apply Hd.
  destruct (hasOwnProperty enc "last_modified");
    rewrite ?get_insert_ne by discriminate;
    rewrite get_drop_undefined; exact Hstatus.
Qed.

Lemma deleted_note_round_trip_witness :
  exists enc d,
    (encode Reference.platform Examples.key_2017 Examples.note_deleted).1 = Resolved enc
    /\ (decode Reference.platform Examples.key_2017 enc).1 = Resolved (PObject d)
    /\ get d "deleted" = VBool true
    /\ get d "_status" = VString "deleted"
    /\ get d "id" = get Examples.note_deleted "id"
    /\ get d "content" = get Examples.note_deleted "content".
Proof.
  apply (deleted_note_round_trip Reference.platform Examples.key_2017
           Examples.note_deleted).
  - exact ReferenceFacts.reference_platform_ok.
  - reflexivity.
Defined.

(** X5.  A note whose status is not [deleted] and none of whose properties
    is [undefined] comes back from [encode] then [decode] exactly as it
    was: every property survives, not only the id and the content. *)
Theorem round_trip_is_exact (P : platform) (key : jwk) (n : obj) :
  platform_ok P ->
  get n "_status" <> VString "deleted" ->
  (forall p, n !! p <> Some VUndefined) ->
  exists enc,
    (encode P key n).1 = Resolved enc
    /\ (decode P key enc).1 = Resolved (PObject n).
Proof.
  intros HP Hstatus Hdefined.
  destruct (encode_spec P key n) as (enc & Henc & Hcontent & _ & _ & Hkid & Hlm).
  exists enc. rewrite Henc. split; [reflexivity |].
  assert (Hdrop : drop_undefined n = n).
  { unfold drop_undefined. apply map_filter_id. intros p v Hp. simpl.
    intros ->. exact (Hdefined p Hp). }
  rewrite (decode_decrypted P key enc n); cycle 1.
  { rewrite Hcontent. apply truthy_string, (jose_nonempty P HP). }
  { exact Hkid. }
  { rewrite Hcontent. unfold decrypt. simpl.
    rewrite (jose_round_trip P HP), (JSON_round_trip P HP), Hdrop. reflexivity. }
  simpl. do 2 f_equal. unfold decoded_note.
  assert (Hsame : (if hasOwnProperty enc "last_modified"
                   then <["last_modified" := get enc "last_modified"]> n else n) = n).
  { destruct (enc !! "last_modified") as [t|] eqn:Ht.
    - rewrite (hasOwnProperty_Some _ _ _ Ht).
      apply insert_id. unfold get. rewrite Ht. simpl. now rewrite <- Hlm.
    - now rewrite (hasOwnProperty_None _ _ Ht). }
  rewrite Hsame. now rewrite strict_eq_false.
Qed.

Lemma round_trip_is_exact_witness :
  exists enc,
    (encode Reference.platform Examples.key_2017 Examples.note_abc).1 = Resolved enc
    /\ (decode Reference.platform Examples.key_2017 enc).1
       = Resolved (PObject Examples.note_abc).
Proof.
  apply (round_trip_is_exact Reference.platform Examples.key_2017 Examples.note_abc).
  - exact ReferenceFacts.reference_platform_ok.
  - vm_compute. discriminate.
  - intros p. unfold Examples.note_abc.
    destruct (decide (p = "id")) as [->|];
      [| destruct (decide (p = "content")) as [->|];
         [| destruct (decide (p = "_status")) as [->|];
            [| destruct (decide (p = "last_modified")) as [->|]]]];
      simplify_map_eq; discriminate.
Defined.

(** X6.  [decode] does not compare the envelope with the payload: the id,
    the content and the status of the decoded note are those of the
    decrypted payload, whatever [id] and [_status] the envelope carries. *)
Theorem decoded_fields_are_the_payload's (P : platform) (key : jwk)
    (record payload : obj) :
  truthy (get record "content") = true ->
  get record "kid" = VString (kid key) ->
  (decrypt P key (ToString (get record "content"))).1 = Resolved (PObject payload) ->
  exists d,
    (decode P key record).1 = Resolved (PObject d)
    /\ get d "id" = get payload "id"
    /\ get d "content" = get payload "content"
    /\ get d "_status" = get payload "_status".
Proof.
  intros Hcontent Hkid Hdecrypt. exists (decoded_note record payload).
  rewrite (decode_decrypted P key record payload Hcontent Hkid Hdecrypt).
  repeat split; apply get_decoded_note; discriminate.
Qed.

Lemma decoded_fields_are_the_payload's_witness :
  exists d,
    (decode Reference.platform Examples.key_2017 MoreExamples.record_relabelled).1
    = Resolved (PObject d)
    /\ get d "id" = get (drop_undefined Examples.note_abc) "id"
    /\ get d "content" = get (drop_undefined Examples.note_abc) "content"
    /\ get d "_status" = get (drop_undefined Examples.note_abc) "_status".
Proof.
  apply (decoded_fields_are_the_payload's Reference.platform Examples.key_2017
           MoreExamples.record_relabelled (drop_undefined Examples.note_abc));
    vm_compute; reflexivity.
Defined.

Lemma remove_first_eq_none (s : string) :
  KeyMaterial.has_eq s = false -> remove_first_eq s = s.
Proof.
  induction s as [|c s IH]; [reflexivity |]. simpl.
  destruct (Ascii.eqb c "=") eqn:Hc; [discriminate |].
  simpl. intros Hs. now rewrite IH.
Qed.

Lemma remove_first_eq_first (a b : string) :
  KeyMaterial.has_eq a = false ->
  remove_first_eq (a +:+ String "=" b) = a +:+ b.
Proof.
  induction a as [|c a IH]; [reflexivity |]. intros Ha. simpl in Ha.
  destruct (Ascii.eqb c "=") eqn:Hc; [discriminate |]. simpl in Ha.
  change (String c a +:+ String "=" b) with (String c (a +:+ String "=" b)).
  change (String c a +:+ b) with (String c (a +:+ b)).
  simpl. rewrite Hc. now rewrite IH.
Qed.

(** X7.  [shared_key] removes the first [=] of the key material and only
    that one: the key type and every other character are kept, so of a
    padding of two [=] one is left; key material without [=] is imported
    as it is. *)
Theorem shared_key_strips_one_padding (t a b id : string) :
  KeyMaterial.has_eq a = false ->
  shared_key (mkJwk t (a +:+ String "=" b) id) = mkCryptoKey t (a +:+ b)
  /\ shared_key (mkJwk t a id) = mkCryptoKey t a.
Proof.
  intros Ha. unfold shared_key. simpl.
  now rewrite remove_first_eq_first, remove_first_eq_none.
Qed.

Lemma shared_key_strips_one_padding_witness :
  shared_key (mkJwk "oct" ("c2VjcmV0LWtleQ" +:+ String "=" "=") "20171005")
  = mkCryptoKey "oct" ("c2VjcmV0LWtleQ" +:+ "=")
  /\ shared_key (mkJwk "oct" "c2VjcmV0LWtleQ" "20171005")
     = mkCryptoKey "oct" "c2VjcmV0LWtleQ".
Proof.
  apply (shared_key_strips_one_padding "oct" "c2VjcmV0LWtleQ" "=" "20171005").
  reflexivity.
Defined.

End TransformerMore.

(** ** The cycle, beyond the claims *)

Module SyncMore.
Import Transformer Sync Trace Stages CycleFacts.
#[local] Open Scope list_scope.

Lemma prefix_append (needle rest : string) : String.prefix needle (needle +:+ rest) = true.
Proof.
  induction needle as [|c needle IH]; [now destruct rest |].
  change (String c needle +:+ rest) with (String c (needle +:+ rest)).
  simpl. destruct (ascii_dec c c); [exact IH | contradiction].
Qed.

(** [includes] finds a needle wherever it is. *)
Lemma includes_append (needle before rest : string) :
  includes needle (before +:+ needle +:+ rest) = true.
Proof.
  induction before as [|c before IH].
  - change ("" +:+ needle +:+ rest) with (needle +:+ rest).
    pose proof (prefix_append needle rest) as Hprefix.
    destruct (needle +:+ rest); cbn [includes]; now rewrite Hprefix.
  - change (String c before +:+ needle +:+ rest)
      with (String c (before +:+ needle +:+ rest)).
    cbn [includes]. rewrite IH. apply orb_true_r.
Qed.

Section WithEnv.
Context {St : Type} {credentials : Credentials St} {credentials_ok : CredentialsOk St}.
Variable E : env.

Lemma trace_synced (received renewedCred : credential) (w : world St) :
  trace (synced received renewedCred w)
  = trace w ++ [CredentialsGet; RenewCredential received;
                CredentialsSet renewedCred; CollectionSync renewedCred].
Proof. simpl. now rewrite <- !app_assoc. Qed.

(** A cycle whose renewal fails goes to the handler before [collection]
    is assigned. *)
Lemma cycle_renewal_rejected (fuel : nat) (w : world St) (received : credential)
    (e : error) :
  credentials_get (storage w) = Some received ->
  fxaRenewCredential E (trace (log CredentialsGet w)) received = Rejected e ->
  syncKinto E (S fuel) w
  = handle_error E (syncKinto E fuel) (mkLocals received false) e
      (log (RenewCredential received) (log CredentialsGet w)).
Proof.
  intros Hcred Hrenew. simpl. unfold cycle. simpl. rewrite Hcred.
  unfold attempt. simpl in *. now rewrite Hrenew.
Qed.

(** A cycle whose store sync fails goes to the handler with the renewed
    credential. *)
Lemma cycle_sync_rejected (fuel : nat) (w : world St)
    (received renewedCred : credential) (e : error) :
  credentials_get (storage w) = Some received ->
  fxaRenewCredential E (trace (log CredentialsGet w)) received = Resolved renewedCred ->
  collection_sync E (trace (renewed received renewedCred w)) renewedCred = Rejected e ->
  syncKinto E (S fuel) w
  = handle_error E (syncKinto E fuel) (mkLocals renewedCred true) e
      (synced received renewedCred w).
Proof.
  intros Hcred Hrenew Hsync. simpl. unfold cycle. simpl. rewrite Hcred.
  unfold attempt. simpl in *. now rewrite Hrenew, Hsync.
Qed.

(** X8.  When the store's sync fails with the [ServerKeyNewerError] of
    [decode], the cycle logs the error, clears the credential, sends
    [reconnect] and resolves: the user is logged out and nothing is
    retried. *)
Theorem newer_key_logs_out (fuel : nat) (w : world St)
    (received renewedCred : credential) :
  credentials_get (storage w) = Some received ->
  fxaRenewCredential E (trace (log CredentialsGet w)) received = Resolved renewedCred ->
  collection_sync E (trace (renewed received renewedCred w)) renewedCred
  = Rejected new_ServerKeyNewerError ->
  exists w',
    syncKinto E (S fuel) w = Some (Resolved VUndefined, w')
    /\ credentials_get (storage w') = None
    /\ trace w'
       = trace w ++ [CredentialsGet; RenewCredential received;
                     CredentialsSet renewedCred; CollectionSync renewedCred;
                     ConsoleError new_ServerKeyNewerError;
                     CredentialsClear; SendMessage Reconnect].
Proof.
  intros Hcred Hrenew Hsync.
  rewrite (cycle_sync_rejected fuel w received renewedCred _ Hcred Hrenew Hsync).
  eexists. split; [reflexivity |]. split; [apply get_after_clear |].
  simpl. now rewrite <- !app_assoc.
Qed.

(** X9.  When the store's sync fails with the [ServerKeyOlderError] of
    [decode], the cycle logs the error, deletes the collection on the
    server under the token of the renewed credential, resets the sync
    status and starts again: it settles as the cycle started from there
    does. *)
Theorem older_key_flushes_the_server (fuel : nat) (w : world St)
    (received renewedCred : credential) :
  let w1 := log (ConsoleError new_ServerKeyOlderError) (synced received renewedCred w) in
  let w2 := log (DeleteCollection (access_token renewedCred)) w1 in
  credentials_get (storage w) = Some received ->
  fxaRenewCredential E (trace (log CredentialsGet w)) received = Resolved renewedCred ->
  collection_sync E (trace (renewed received renewedCred w)) renewedCred
  = Rejected new_ServerKeyOlderError ->
  deleteCollection E (trace w1) (access_token renewedCred) = Resolved tt ->
  collection_resetSyncStatus E (trace w2) = Resolved tt ->
  syncKinto E (S fuel) w = syncKinto E fuel (log CollectionResetSyncStatus w2).
Proof.
  intros w1 w2 Hcred Hrenew Hsync Hdelete Hreset.
  rewrite (cycle_sync_rejected fuel w received renewedCred _ Hcred Hrenew Hsync).
  unfold handle_error. simpl bool_decide. cbv iota.
  fold w1. simpl l_credential. rewrite Hdelete. fold w2. simpl l_collection. cbv iota.
  now rewrite Hreset.
Qed.

(** X26.  When the deletion of the collection asked for after a
    [ServerKeyOlderError] fails, the cycle rejects with that failure and
    stops there: the sync status is not reset, the credential stays stored
    and no [reconnect] is sent. *)
Theorem failed_flush_is_passed_on (fuel : nat) (w : world St)
    (received renewedCred : credential) (e : error) :
  let w1 := log (ConsoleError new_ServerKeyOlderError) (synced received renewedCred w) in
  credentials_get (storage w) = Some received ->
  fxaRenewCredential E (trace (log CredentialsGet w)) received = Resolved renewedCred ->
  collection_sync E (trace (renewed received renewedCred w)) renewedCred
  = Rejected new_ServerKeyOlderError ->
  deleteCollection E (trace w1) (access_token renewedCred) = Rejected e ->
  syncKinto E (S fuel) w
  = Some (Rejected e, log (DeleteCollection (access_token renewedCred)) w1)
  /\ credentials_get (storage (log (DeleteCollection (access_token renewedCred)) w1))
     = Some renewedCred.
Proof.
  intros w1 Hcred Hrenew Hsync Hdelete.
  rewrite (cycle_sync_rejected fuel w received renewedCred _ Hcred Hrenew Hsync).
  unfold handle_error. simpl bool_decide. cbv iota.
  fold w1. simpl l_credential. rewrite Hdelete.
  split; [reflexivity | apply get_after_set].
Qed.

(** X10.  When the store's sync fails with a message that contains
    "flushed", the cycle resets the sync status and starts again, without
    deleting anything on the server: it settles as the cycle started from
    there does. *)
Theorem flushed_server_restarts (fuel : nat) (w : world St)
    (received renewedCred : credential) (e : error) (before rest : string) :
  credentials_get (storage w) = Some received ->
  fxaRenewCredential E (trace (log CredentialsGet w)) received = Resolved renewedCred ->
  collection_sync E (trace (renewed received renewedCred w)) renewedCred = Rejected e ->
  response_status e = None ->
  eclass e = PlainError ->
  message e = before +:+ "flushed" +:+ rest ->
  collection_resetSyncStatus E (trace (synced received renewedCred w)) = Resolved tt ->
  syncKinto E (S fuel) w
  = syncKinto E fuel (log CollectionResetSyncStatus (synced received renewedCred w)).
Proof.
  intros Hcred Hrenew Hsync Hstatus Hclass Hmessage Hreset.
  rewrite (cycle_sync_rejected fuel w received renewedCred _ Hcred Hrenew Hsync).
  unfold handle_error. rewrite Hstatus, Hclass, Hmessage, includes_append.
  simpl bool_decide. cbv iota. simpl l_collection. cbv iota. now rewrite Hreset.
Qed.

(** X11.  When the store's sync fails with a message that contains
    "syncResult is undefined" (and not "flushed"), the cycle resolves with
    [null] and does nothing more: the credential stays, no message is
    sent. *)
Theorem missing_sync_result_is_benign (fuel : nat) (w : world St)
    (received renewedCred : credential) (e : error) (before rest : string) :
  credentials_get (storage w) = Some received ->
  fxaRenewCredential E (trace (log CredentialsGet w)) received = Resolved renewedCred ->
  collection_sync E (trace (renewed received renewedCred w)) renewedCred = Rejected e ->
  response_status e = None ->
  eclass e = TypeError ->
  message e = before +:+ "syncResult is undefined" +:+ rest ->
  includes "flushed" (message e) = false ->
  syncKinto E (S fuel) w = Some (Resolved VNull, synced received renewedCred w)
  /\ credentials_get (storage (synced received renewedCred w)) = Some renewedCred.
Proof.
  intros Hcred Hrenew Hsync Hstatus Hclass Hmessage Hflushed.
  rewrite (cycle_sync_rejected fuel w received renewedCred _ Hcred Hrenew Hsync).
  unfold handle_error. rewrite Hflushed, Hstatus, Hclass, Hmessage, includes_append.
  split; [reflexivity | apply get_after_set].
Qed.

(** X12.  When the renewal of the credential fails with "Failed to renew
    token", the cycle clears the credential, sends [reconnect] and
    resolves; the store is never called and nothing is stored. *)
Theorem failed_renewal_logs_out (fuel : nat) (w : world St) (received : credential) :
  credentials_get (storage w) = Some received ->
  fxaRenewCredential E (trace (log CredentialsGet w)) received
  = Rejected (new_Error "Failed to renew token") ->
  exists w',
    syncKinto E (S fuel) w = Some (Resolved VUndefined, w')
    /\ credentials_get (storage w') = None
    /\ trace w'
       = trace w ++ [CredentialsGet; RenewCredential received;
                     CredentialsClear; SendMessage Reconnect].
Proof.
  intros Hcred Hrenew.
  rewrite (cycle_renewal_rejected fuel w received _ Hcred Hrenew).
  eexists. split; [reflexivity |]. split; [apply get_after_clear |].
  simpl. now rewrite <- !app_assoc.
Qed.

(** X13.  When the store's sync fails with a failure that none of the tests
    of the handler recognises, the cycle logs it, clears the credential,
    sends [reconnect], and rejects with that same failure. *)
Theorem unknown_failure_logs_out_and_rejects (fuel : nat) (w : world St)
    (received renewedCred : credential) (e : error) :
  credentials_get (storage w) = Some received ->
  fxaRenewCredential E (trace (log CredentialsGet w)) received = Resolved renewedCred ->
  collection_sync E (trace (renewed received renewedCred w)) renewedCred = Rejected e ->
  unclassified e = true ->
  exists w',
    syncKinto E (S fuel) w = Some (Rejected e, w')
    /\ credentials_get (storage w') = None
    /\ trace w'
       = trace w ++ [CredentialsGet; RenewCredential received;
                     CredentialsSet renewedCred; CollectionSync renewedCred;
                     ConsoleError e; CredentialsClear; SendMessage Reconnect].
Proof.
  intros Hcred Hrenew Hsync Hunknown.
  rewrite (cycle_sync_rejected fuel w received renewedCred _ Hcred Hrenew Hsync).
  unfold unclassified in Hunknown.
  repeat (apply andb_prop in Hunknown as [Hunknown ?]).
  unfold handle_error.
  repeat match goal with
         | H : negb ?b = true |- _ => apply negb_true_iff in H; rewrite H; clear H
         end.
  eexists. split; [reflexivity |]. split; [apply get_after_clear |].
  simpl. now rewrite <- !app_assoc.
Qed.

(** X14.  Without a stored credential a load does no network call at all:
    it reads the credential, lists the local notes and sends
    [kinto-loaded] with them (or with [null] when the listing fails). *)
Theorem signed_out_load_is_local (fuel : nat) (w : world St) :
  credentials_get (storage w) = None ->
  loadFromKinto E (S fuel) w
  = Some (log (SendMessage
                 (KintoLoaded
                    match collection_list E (trace w ++ [CredentialsGet]) with
                    | Resolved data => Some data
                    | Rejected _ => None
                    end VNull))
            (log CollectionList (log CredentialsGet w))).
Proof.
  intros Hcred. unfold loadFromKinto. simpl. unfold cycle. simpl. rewrite Hcred.
  unfold retrieveNote. simpl.
  now destruct (collection_list E (trace w ++ [CredentialsGet])).
Qed.

End WithEnv.

Lemma newer_key_logs_out_witness :
  exists w',
    syncKinto (MoreExamples.first_sync (Rejected new_ServerKeyNewerError)) 1 Examples.fresh
    = Some (Resolved VUndefined, w')
    /\ credentials_get (storage w') = None
    /\ trace w'
       = trace Examples.fresh
           ++ [CredentialsGet; RenewCredential Examples.signed_in;
               CredentialsSet Examples.signed_in; CollectionSync Examples.signed_in;
               ConsoleError new_ServerKeyNewerError;
               CredentialsClear; SendMessage Reconnect].
Proof.
  apply (newer_key_logs_out (MoreExamples.first_sync (Rejected new_ServerKeyNewerError))
           0 Examples.fresh Examples.signed_in Examples.signed_in);
    reflexivity.
Defined.

Lemma older_key_flushes_the_server_witness :
  syncKinto (MoreExamples.first_sync (Rejected new_ServerKeyOlderError)) 2 Examples.fresh
  = syncKinto (MoreExamples.first_sync (Rejected new_ServerKeyOlderError)) 1
      (log CollectionResetSyncStatus
         (log (DeleteCollection "token-1")
            (log (ConsoleError new_ServerKeyOlderError)
               (synced Examples.signed_in Examples.signed_in Examples.fresh)))).
Proof.
  apply (older_key_flushes_the_server
           (MoreExamples.first_sync (Rejected new_ServerKeyOlderError))
           1 Examples.fresh Examples.signed_in Examples.signed_in);
    reflexivity.
Defined.

Lemma failed_flush_is_passed_on_witness :
  syncKinto Examples.rotated_then_unauthorized 1 Examples.fresh
  = Some (Rejected Examples.http_401,
          log (DeleteCollection "token-1")
            (log (ConsoleError new_ServerKeyOlderError)
               (synced Examples.signed_in Examples.signed_in Examples.fresh)))
  /\ credentials_get
       (storage
          (log (DeleteCollection "token-1")
             (log (ConsoleError new_ServerKeyOlderError)
                (synced Examples.signed_in Examples.signed_in Examples.fresh))))
     = Some Examples.signed_in.
Proof.
  apply (failed_flush_is_passed_on Examples.rotated_then_unauthorized
           0 Examples.fresh Examples.signed_in Examples.signed_in Examples.http_401);
    reflexivity.
Defined.

Lemma flushed_server_restarts_witness :
  syncKinto (MoreExamples.first_sync (Rejected MoreExamples.flushed_error)) 2 Examples.fresh
  = syncKinto (MoreExamples.first_sync (Rejected MoreExamples.flushed_error)) 1
      (log CollectionResetSyncStatus
         (synced Examples.signed_in Examples.signed_in Examples.fresh)).
Proof.
  apply (flushed_server_restarts
           (MoreExamples.first_sync (Rejected MoreExamples.flushed_error))
           1 Examples.fresh Examples.signed_in Examples.signed_in
           MoreExamples.flushed_error
           "Server has been " ". Client Side Timestamp: 1507000000000");
    reflexivity.
Defined.

Lemma missing_sync_result_is_benign_witness :
  syncKinto (MoreExamples.first_sync (Rejected MoreExamples.no_sync_result)) 1 Examples.fresh
  = Some (Resolved VNull, synced Examples.signed_in Examples.signed_in Examples.fresh)
  /\ credentials_get
       (storage (synced Examples.signed_in Examples.signed_in Examples.fresh))
     = Some Examples.signed_in.
Proof.
  apply (missing_sync_result_is_benign
           (MoreExamples.first_sync (Rejected MoreExamples.no_sync_result))
           0 Examples.fresh Examples.signed_in Examples.signed_in
           MoreExamples.no_sync_result "" "");
    reflexivity.
Defined.

Lemma failed_renewal_logs_out_witness :
  exists w',
    syncKinto MoreExamples.expired 1 Examples.fresh = Some (Resolved VUndefined, w')
    /\ credentials_get (storage w') = None
    /\ trace w'
       = trace Examples.fresh
           ++ [CredentialsGet; RenewCredential Examples.signed_in;
               CredentialsClear; SendMessage Reconnect].
Proof.
  apply (failed_renewal_logs_out MoreExamples.expired 0 Examples.fresh Examples.signed_in);
    reflexivity.
Defined.

(** The failure of [decode] on a record without ciphertext is one the
    handler does not know. *)
Lemma unknown_failure_logs_out_and_rejects_witness :
  exists w',
    syncKinto
      (MoreExamples.first_sync
         (Rejected (new_Error "No ciphertext: nothing to decrypt?"))) 1 Examples.fresh
    = Some (Rejected (new_Error "No ciphertext: nothing to decrypt?"), w')
    /\ credentials_get (storage w') = None
    /\ trace w'
       = trace Examples.fresh
           ++ [CredentialsGet; RenewCredential Examples.signed_in;
               CredentialsSet Examples.signed_in; CollectionSync Examples.signed_in;
               ConsoleError (new_Error "No ciphertext: nothing to decrypt?");
               CredentialsClear; SendMessage Reconnect].
Proof.
  apply (unknown_failure_logs_out_and_rejects
           (MoreExamples.first_sync
              (Rejected (new_Error "No ciphertext: nothing to decrypt?")))
           0 Examples.fresh Examples.signed_in Examples.signed_in);
    reflexivity.
Defined.

Lemma signed_out_load_is_local_witness :
  loadFromKinto Examples.quiet 1 MoreExamples.signed_out
  = Some (log (SendMessage
                 (KintoLoaded
                    match collection_list Examples.quiet
                            (trace MoreExamples.signed_out ++ [CredentialsGet]) with
                    | Resolved data => Some data
                    | Rejected _ => None
                    end VNull))
            (log CollectionList (log CredentialsGet MoreExamples.signed_out))).
Proof.
  apply (signed_out_load_is_local Examples.quiet 0 MoreExamples.signed_out).
  reflexivity.
Defined.

End SyncMore.

(** ** The conflicts of a round, beyond the claims *)

Module ConflictMore.
Import Transformer Sync Trace Stages CycleFacts.
#[local] Open Scope list_scope.

Section WithEnv.
Context {St : Type} {credentials : Credentials St} {credentials_ok : CredentialsOk St}.
Variable E : env.

Lemma resolutions_app (a b : list event) :
  resolutions (a ++ b) = resolutions a ++ resolutions b.
Proof. unfold resolutions. apply omap_app. Qed.

(** The callback of a plain conflict submits one resolution, after events
    that submit none, and leaves the published records alone. *)
Lemma conflict_callback_plain (c : conflict) (published : list obj) (w : world St) :
  plain_conflict c ->
  exists p resolution events,
    conflict_callback E c published w
    = (Resolved p, published, log (CollectionResolve c resolution) (events w))
    /\ exists before,
         trace (events w) = trace w ++ before /\ resolutions before = [].
Proof.
  intros [[l Hlocal] Hremote]. unfold conflict_callback, resolution_of.
  rewrite Hlocal. destruct (remote c) as [r|] eqn:Hr.
  - rewrite TransformerFacts.strict_eq_false by (now apply Hremote).
    eexists _, _, (fun w => log (SendMetrics "handle-conflict") (set_conflict true w)).
    split; [reflexivity |].
    exists [SetConflict true; SendMetrics "handle-conflict"].
    split; [simpl; now rewrite <- app_assoc | reflexivity].
  - eexists _, _, (fun w => w). split; [reflexivity |].
    exists []. split; [now rewrite app_nil_r | reflexivity].
Qed.

(** X15.  When no conflict of a round is the single-note sentinel and each
    has its local side, [conflicts.map] submits exactly one resolution per
    conflict, in the order of the conflicts, whatever the store answers to
    each, and leaves the published records as they are. *)
Theorem one_resolution_per_conflict (cs : list conflict) :
  forall (published : list obj) (w : world St),
    Forall plain_conflict cs ->
    exists promises w' events,
      map_conflicts E cs published w = (Resolved promises, published, w')
      /\ length promises = length cs
      /\ trace w' = trace w ++ events
      /\ (resolutions events).*1 = cs.
Proof.
  induction cs as [|c cs IH]; intros published w Hplain.
  - exists [], w, []. repeat split. simpl. now rewrite app_nil_r.
  - inversion Hplain as [|? ? Hc Hcs]; subst.
    destruct (conflict_callback_plain c published w Hc)
      as (p & resolution & step & Hcallback & before & Hbefore & Hnone).
    destruct (IH published (log (CollectionResolve c resolution) (step w)) Hcs)
      as (ps & w' & events & Hmap & Hlength & Htrace & Hresolutions).
    exists (p :: ps), w', (before ++ [CollectionResolve c resolution] ++ events).
    simpl. rewrite Hcallback, Hmap. split; [reflexivity |].
    split; [simpl; now rewrite Hlength |]. split.
    + rewrite Htrace. simpl. rewrite Hbefore. now rewrite <- !app_assoc.
    + rewrite resolutions_app, Hnone, app_nil_l, <- Hresolutions. reflexivity.
Qed.

(** X16.  A migration conflict (remote id [singleNote]) in a round that
    published no was-single-note record makes the callback throw before it
    writes or submits anything: the cycle logs the [TypeError], clears the
    credential, sends [reconnect] and rejects. *)
Theorem migration_without_successor_logs_out (fuel : nat) (w : world St)
    (received renewedCred : credential) (result : syncResult)
    (c : conflict) (cs : list conflict) (r : obj) :
  credentials_get (storage w) = Some received ->
  fxaRenewCredential E (trace (log CredentialsGet w)) received = Resolved renewedCred ->
  collection_sync E (trace (renewed received renewedCred w)) renewedCred
  = Resolved result ->
  conflicts result = c :: cs ->
  remote c = Some r ->
  get r "id" = VString "singleNote" ->
  find_wasSingleNote (published result) = None ->
  exists w',
    syncKinto E (S fuel) w
    = Some (Rejected (new_TypeError "wasSingleNote is undefined"), w')
    /\ credentials_get (storage w') = None
    /\ trace w'
       = trace w ++ [CredentialsGet; RenewCredential received;
                     CredentialsSet renewedCred; CollectionSync renewedCred;
                     ConsoleError (new_TypeError "wasSingleNote is undefined");
                     CredentialsClear; SendMessage Reconnect].
Proof.
  intros Hcred Hrenew Hsync Hconflicts Hremote Hid Hfind.
  simpl. unfold cycle. simpl. rewrite Hcred. unfold attempt. simpl in *.
  rewrite Hrenew, Hsync, Hconflicts. simpl.
  unfold conflict_callback, resolution_of.
  rewrite Hremote, Hid, TransformerFacts.strict_eq_refl, Hfind.
  eexists. split; [reflexivity |]. split; [apply get_after_clear |].
  simpl. now rewrite <- !app_assoc.
Qed.

(** X17.  In the migration, the merged was-single-note record is upserted
    first, then the metric is sent and the session flagged, and only then
    is the resolution submitted; the resolution is the local side of the
    conflict as it is. *)
Theorem migration_upserts_before_resolving (c : conflict) (r : obj)
    (published : list obj) (i : nat) (note : obj) (w : world St) :
  let merged :=
    <["content" := VString ((ToString (get r "content") +:+ banner E)
                            +:+ ToString (get note "content"))]> note in
  remote c = Some r ->
  get r "id" = VString "singleNote" ->
  find_wasSingleNote published = Some (i, note) ->
  exists answer w',
    conflict_callback E c published w = (Resolved answer, <[i := merged]> published, w')
    /\ client_conflict w' = VBool true
    /\ trace w'
       = trace w ++ [CollectionUpsert merged; SendMetric "migrate-single-note";
                     SetConflict true; SendMetrics "handle-conflict";
                     CollectionResolve c (local c)].
Proof.
  intros merged Hremote Hid Hfind. unfold conflict_callback, resolution_of.
  rewrite Hremote, Hid, TransformerFacts.strict_eq_refl, Hfind.
  eexists _, _. split; [reflexivity |]. split; [reflexivity |].
  simpl. now rewrite <- !app_assoc.
Qed.

(** X18.  The merge converts what it concatenates to text: when the local
    record has no [content], the merged content ends with the text
    "undefined". *)
Theorem merge_of_missing_content (c : conflict) (l r : obj)
    (published : list obj) (w : world St) :
  remote c = Some r ->
  get r "id" <> VString "singleNote" ->
  local c = Some l ->
  l !! "content" = None ->
  (resolution_of E c published w).1.1
  = Resolved (Some {[ "id" := get r "id";
                      "content" := VString ((ToString (get r "content") +:+ banner E)
                                            +:+ "undefined") ]}).
Proof.
  intros Hremote Hid Hlocal Hcontent. unfold resolution_of.
  rewrite Hremote, Hlocal, TransformerFacts.strict_eq_false by exact Hid.
  unfold get at 3. rewrite Hcontent. reflexivity.
Qed.

End WithEnv.

Lemma one_resolution_per_conflict_witness :
  exists promises w' events,
    map_conflicts Examples.quiet [Examples.conflict_remote_null; Examples.conflict_abc]
      [] Examples.fresh
    = (Resolved promises, [], w')
    /\ length promises = 2
    /\ trace w' = trace Examples.fresh ++ events
    /\ (resolutions events).*1 = [Examples.conflict_remote_null; Examples.conflict_abc].
Proof.
  apply (one_resolution_per_conflict Examples.quiet
           [Examples.conflict_remote_null; Examples.conflict_abc] [] Examples.fresh).
  repeat constructor.
  - now exists Examples.local_abc.
  - intros r [=].
  - now exists Examples.local_abc.
  - intros r [= <-]. unfold Examples.remote_abc, get.
    rewrite lookup_insert_eq. discriminate.
Defined.

Lemma migration_without_successor_logs_out_witness :
  exists w',
    syncKinto
      (MoreExamples.first_sync
         (Resolved (mkSyncResult [Examples.conflict_singleNote] []))) 1 Examples.fresh
    = Some (Rejected (new_TypeError "wasSingleNote is undefined"), w')
    /\ credentials_get (storage w') = None
    /\ trace w'
       = trace Examples.fresh
           ++ [CredentialsGet; RenewCredential Examples.signed_in;
               CredentialsSet Examples.signed_in; CollectionSync Examples.signed_in;
               ConsoleError (new_TypeError "wasSingleNote is undefined");
               CredentialsClear; SendMessage Reconnect].
Proof.
  apply (migration_without_successor_logs_out
           (MoreExamples.first_sync
              (Resolved (mkSyncResult [Examples.conflict_singleNote] [])))
           0 Examples.fresh Examples.signed_in Examples.signed_in
           (mkSyncResult [Examples.conflict_singleNote] [])
           Examples.conflict_singleNote [] Examples.remote_singleNote);
    reflexivity.
Defined.

Lemma migration_upserts_before_resolving_witness :
  let merged :=
    <["content" := VString ((ToString (get Examples.remote_singleNote "content")
                             +:+ banner Examples.quiet)
                            +:+ ToString (get Examples.successor "content"))]>
      Examples.successor in
  exists answer w',
    conflict_callback Examples.quiet Examples.conflict_singleNote
      Examples.published_after_migration Examples.fresh
    = (Resolved answer, <[0 := merged]> Examples.published_after_migration, w')
    /\ client_conflict w' = VBool true
    /\ trace w'
       = trace Examples.fresh
           ++ [CollectionUpsert merged; SendMetric "migrate-single-note";
               SetConflict true; SendMetrics "handle-conflict";
               CollectionResolve Examples.conflict_singleNote
                 (local Examples.conflict_singleNote)].
Proof.
  apply (migration_upserts_before_resolving Examples.quiet Examples.conflict_singleNote
           Examples.remote_singleNote Examples.published_after_migration
           0 Examples.successor Examples.fresh);
    reflexivity.
Defined.

Lemma merge_of_missing_content_witness :
  (resolution_of Examples.quiet MoreExamples.conflict_blank [] Examples.fresh).1.1
  = Resolved (Some {[ "id" := get Examples.remote_abc "id";
                      "content" := VString ((ToString (get Examples.remote_abc "content")
                                             +:+ banner Examples.quiet)
                                            +:+ "undefined") ]}).
Proof.
  apply (merge_of_missing_content Examples.quiet MoreExamples.conflict_blank
           MoreExamples.local_blank Examples.remote_abc [] Examples.fresh);
    try reflexivity.
  unfold Examples.remote_abc, get. rewrite lookup_insert_eq. discriminate.
Defined.

End ConflictMore.

(** ** Load and save, beyond the claims *)

Module SaveMore.
Import Transformer Sync Trace Stages CycleFacts.
#[local] Open Scope list_scope.

Lemma cycle_event_message (events : list event) :
  forallb cycle_event events = true ->
  Forall (fun m => m = Reconnect) (messages events)
  /\ ~ In CollectionList events
  /\ ~ In (SetConflict false) events.
Proof.
  induction events as [|e events IH]; [repeat split; auto; constructor |].
  simpl. intros [He Hrest]%andb_prop. destruct (IH Hrest) as (Hm & Hl & Hs).
  repeat split.
  - unfold messages in *. simpl.
    destruct e as [| | | | | | | | | | | |m| |]; try exact Hm.
    constructor; [| exact Hm]. now destruct m.
  - intros [->|Hin]; [discriminate He | auto].
  - intros [->|Hin]; [discriminate He | auto].
Qed.

Section WithEnv.
Context {St : Type} {credentials : Credentials St}.
Variable E : env.

(** X19.  Whatever a settled cycle did, the only message it sent is
    [reconnect], it never listed the notes, and it never reset
    [client.conflict]: the flag is [true] afterwards, or what it was
    before. *)
Theorem cycle_keeps_to_itself (fuel : nat) (w w' : world St) (r : outcome value) :
  syncKinto E fuel w = Some (r, w') ->
  exists events,
    trace w' = trace w ++ events
    /\ Forall (fun m => m = Reconnect) (messages events)
    /\ ~ In CollectionList events
    /\ ~ In (SetConflict false) events
    /\ (client_conflict w' = VBool true \/ client_conflict w' = client_conflict w).
Proof.
  intros Hsync.
  destruct (syncKinto_extends E fuel w w' r Hsync) as (events & Htrace & Hcycle & Hflag).
  exists events. split; [exact Htrace |].
  destruct (cycle_event_message events Hcycle) as (Hm & Hl & Hs).
  repeat split; try assumption.
  rewrite Hflag. destruct (conflict_resolved events); auto.
Qed.

(** What [later] does once the cycle is over, or skipped. *)
Lemma report_after (w : world St) :
  exists w',
    match retrieveNote E w with
    | (Resolved data, w0) =>
        match send E (TextSynced (Some data) (client_conflict w0)) w0 with
        | (Resolved _, w1) => w1
        | (Rejected _, w1) => log (SendMessage (TextSynced None (client_conflict w1))) w1
        end
    | (Rejected _, w0) => log (SendMessage (TextSynced None (client_conflict w0))) w0
    end = w'
    /\ trace w' = trace w ++ CollectionList :: (SendMessage <$> text_synced_report E w)
    /\ client_conflict w' = client_conflict w
    /\ storage w' = storage w.
Proof.
  unfold retrieveNote, send, text_synced_report. simpl.
  destruct (collection_list E (trace w)) as [data|e]; simpl.
  - destruct (sendMessage E _ _) as [[]|e]; simpl;
      eexists; (split; [reflexivity |]); simpl; rewrite <- ?app_assoc; auto.
  - eexists. split; [reflexivity |]. simpl. rewrite <- ?app_assoc. auto.
Qed.

(** X20.  When the upsert of a fired save is rejected, the save neither
    sends [text-saved] nor resets [client.conflict] nor runs a cycle (it
    needs no fuel): it lists the notes and ends with its [text-synced]
    report. *)
Theorem rejected_upsert_skips_the_sync (fuel : nat) (note : obj) (w : world St)
    (e : error) :
  collection_upsert E (trace w) note = Rejected e ->
  exists w',
    later E fuel note w = Some w'
    /\ trace w'
       = trace w ++ CollectionUpsert note :: CollectionList
           :: (SendMessage <$> text_synced_report E (log (CollectionUpsert note) w))
    /\ client_conflict w' = client_conflict w
    /\ storage w' = storage w.
Proof.
  intros Hupsert. unfold later. rewrite Hupsert.
  destruct (report_after (log (CollectionUpsert note) w)) as (w' & -> & Htrace & Hflag & Hs).
  exists w'. split; [reflexivity |]. rewrite Htrace, Hflag, Hs. simpl.
  rewrite <- app_assoc. auto.
Qed.

(** X21.  A fired save whose upsert succeeds and whose sync settles ends by
    listing the notes and sending [text-synced] with them; when the
    runtime rejects that message it sends a second [text-synced] without
    notes, and when the listing fails a single one without notes. *)
Theorem save_ends_with_its_report (n fuel : nat) (note : obj) (w : world St) :
  collection_upsert E (trace w) note = Resolved tt ->
  settles_after E n ->
  n < fuel ->
  exists r w1 w2,
    syncKinto E fuel (saved note w) = Some (r, w1)
    /\ later E fuel note w = Some w2
    /\ trace w2 = trace w1 ++ CollectionList :: (SendMessage <$> text_synced_report E w1)
    /\ client_conflict w2 = client_conflict w1.
Proof.
  intros Hupsert Hsettles Hfuel. destruct fuel as [|fuel]; [lia |].
  destruct (SyncFacts.syncKinto_settles E n Hsettles fuel (saved note w) ltac:(lia))
    as [[r w1] Hsync].
  unfold later. rewrite Hupsert. fold (saved note w). rewrite Hsync.
  destruct (report_after w1) as (w2 & -> & Htrace & Hflag & _).
  now exists r, w1, w2.
Qed.

End WithEnv.

Lemma cycle_keeps_to_itself_witness :
  exists events,
    [CredentialsGet; RenewCredential Examples.signed_in;
     CredentialsSet Examples.signed_in; CollectionSync Examples.signed_in;
     CredentialsClear; SendMessage Reconnect]
    = trace Examples.fresh ++ events
    /\ Forall (fun m => m = Reconnect) (messages events)
    /\ ~ In CollectionList events
    /\ ~ In (SetConflict false) events
    /\ (VUndefined = VBool true \/ VUndefined = client_conflict Examples.fresh).
Proof.
  apply (cycle_keeps_to_itself Examples.unauthorized 1 Examples.fresh
           (mkWorld ∅ VUndefined
              [CredentialsGet; RenewCredential Examples.signed_in;
               CredentialsSet Examples.signed_in; CollectionSync Examples.signed_in;
               CredentialsClear; SendMessage Reconnect])
           (Resolved VUndefined)).
  vm_compute. reflexivity.
Defined.

Lemma rejected_upsert_skips_the_sync_witness :
  exists w',
    later Examples.quiet 0 Examples.draft Examples.fresh = Some w'
    /\ trace w'
       = trace Examples.fresh
           ++ CollectionUpsert Examples.draft :: CollectionList
              :: (SendMessage <$> text_synced_report Examples.quiet
                                    (log (CollectionUpsert Examples.draft) Examples.fresh))
    /\ client_conflict w' = client_conflict Examples.fresh
    /\ storage w' = storage Examples.fresh.
Proof.
  apply (rejected_upsert_skips_the_sync Examples.quiet 0 Examples.draft Examples.fresh
           (new_Error "Cannot upsert a record missing id.")).
  reflexivity.
Defined.

Lemma nobody_listens_settles : settles_after MoreExamples.nobody_listens 0.
Proof. intros events c _. reflexivity. Qed.

Lemma save_ends_with_its_report_witness :
  exists r w1 w2,
    syncKinto MoreExamples.nobody_listens 1 (saved Examples.local_abc Examples.fresh)
    = Some (r, w1)
    /\ later MoreExamples.nobody_listens 1 Examples.local_abc Examples.fresh = Some w2
    /\ trace w2
       = trace w1 ++ CollectionList
           :: (SendMessage <$> text_synced_report MoreExamples.nobody_listens w1)
    /\ client_conflict w2 = client_conflict w1.
Proof.
  apply (save_ends_with_its_report MoreExamples.nobody_listens 0 1
           Examples.local_abc Examples.fresh).
  - reflexivity.
  - exact nobody_listens_settles.
  - lia.
Defined.

(** With nobody listening, [text-synced] is sent twice. *)
Example save_with_nobody_listening :
  option_map (fun w => messages (trace w))
    (later MoreExamples.nobody_listens 1 Examples.local_abc Examples.fresh)
  = Some [TextSaved;
          TextSynced (Some [Examples.note_abc]) (VBool false);
          TextSynced None (VBool false)].
Proof. vm_compute. reflexivity. Qed.

End SaveMore.

(** ** The debounce of [saveToKinto] *)

Module DebounceFacts.
Import Transformer Sync Trace Debounce.
#[local] Open Scope list_scope.

Section WithEnv.
Context {St : Type} {credentials : Credentials St}.
Variable E : env.

Lemma clearTimeout_one_timer (p : page St) :
  one_timer p -> clearTimeout (syncDebounce p) (timers p) = [].
Proof.
  intros [[Htimers Hhandle]|(id & note & Htimers & Hhandle)];
    rewrite Htimers, Hhandle; simpl; [reflexivity |].
  now rewrite Nat.eqb_refl.
Qed.

Lemma clearTimeout_subset (handle : option nat) (armed : list (nat * obj))
    (t : nat * obj) :
  t ∈ clearTimeout handle armed -> t ∈ armed.
Proof.
  rewrite !list_elem_of_In. destruct handle; simpl; [| auto].
  now intros [H _]%filter_In.
Qed.

Lemma saveToKinto_one_timer (note : obj) (p : page St) :
  one_timer p ->
  timers (saveToKinto note p).2 = [(next_timer p, note)]
  /\ syncDebounce (saveToKinto note p).2 = Some (next_timer p).
Proof.
  intros Hp. unfold saveToKinto. simpl. now rewrite (clearTimeout_one_timer p Hp).
Qed.

(** X22.  Whatever saves and timer firings follow one another, at most one
    timer is armed at any time, and it is the one [syncDebounce] names:
    every call clears the timer of the call before. *)
Theorem at_most_one_timer (fuel : nat) (steps : list step) :
  forall p p' : page St,
    one_timer p ->
    run E fuel steps p = Some p' ->
    one_timer p'.
Proof.
  induction steps as [|[note|] steps IH]; intros p p' Hp Hrun; cbn [run] in Hrun.
  - now injection Hrun as <-.
  - apply (IH (saveToKinto note p).2 p'); [| exact Hrun].
    right. exists (next_timer p), note. now apply saveToKinto_one_timer.
  - destruct (fire E fuel p) as [p1|] eqn:Hfire; [| discriminate].
    apply (IH p1 p'); [| exact Hrun].
    unfold fire in Hfire.
    destruct Hp as [[Htimers Hhandle]|(id & note & Htimers & Hhandle)];
      rewrite Htimers in Hfire.
    + injection Hfire as <-. now left.
    + destruct (later E fuel note (page_world p)); [| discriminate].
      injection Hfire as <-. now left.
Qed.

(** X23.  Saves that follow one another before the timer fires coalesce:
    each sends [text-editing], and after the last one a single timer is
    armed, for the note of the last call; when it fires, [later] runs once,
    on that note, and resolves the promise of the last call only. *)
Theorem saves_coalesce (fuel : nat) (notes : list obj) :
  forall (last : obj) (p : page St),
    one_timer p ->
    exists p',
      run E fuel (Save <$> (notes ++ [last])) p = Some p'
      /\ timers p' = [(next_timer p + length notes, last)]
      /\ syncDebounce p' = Some (next_timer p + length notes)
      /\ resolved p' = resolved p
      /\ trace (page_world p')
         = trace (page_world p)
             ++ replicate (S (length notes)) (SendMessage TextEditing)
      /\ fire E fuel p'
         = match later E fuel last (page_world p') with
           | Some w =>
               Some (mkPage w None [] (next_timer p')
                       ((next_timer p + length notes) :: resolved p))
           | None => None
           end.
Proof.
  induction notes as [|note notes IH]; intros last p Hp.
  - destruct (saveToKinto_one_timer last p Hp) as [Htimers Hhandle].
    exists (saveToKinto last p).2. simpl in *. rewrite Nat.add_0_r.
    repeat split; try assumption.
    unfold fire. simpl. now rewrite (clearTimeout_one_timer p Hp).
  - destruct (saveToKinto_one_timer note p Hp) as [Htimers Hhandle].
    destruct (IH last (saveToKinto note p).2) as (p' & Hrun & Ht & Hh & Hr & Htrace & Hfire).
    { right. now exists (next_timer p), note. }
    exists p'. simpl in *.
    rewrite Nat.add_succ_r. repeat split; try assumption.
    rewrite Htrace, <- app_assoc. reflexivity.
Qed.

(** X24.  The promise of a superseded call is never resolved: once a second
    [saveToKinto] has cleared the timer of the first, no later save or
    firing resolves the promise the first call returned. *)
Theorem superseded_promise_never_resolves (fuel : nat) (steps : list step)
    (note1 note2 : obj) (p p' : page St) :
  one_timer p ->
  well_formed p ->
  run E fuel steps (saveToKinto note2 (saveToKinto note1 p).2).2 = Some p' ->
  ~ In (saveToKinto note1 p).1 (resolved p').
Proof.
  intros Hp [Harmed Hresolved].
  assert (Hgeneral : forall steps (q q' : page St) id,
    run E fuel steps q = Some q' ->
    id < next_timer q ->
    Forall (fun t => t.1 < next_timer q) (timers q) ->
    ~ In id (timers q).*1 ->
    ~ In id (resolved q) ->
    ~ In id (resolved q')).
  { clear. induction steps as [|[note|] steps IH]; intros q q' id Hrun Hid Hlt Harmed Hres;
      simpl in Hrun.
    - now injection Hrun as <-.
    - apply (IH _ q' id Hrun); simpl.
      + lia.
      + apply Forall_app. split.
        * assert (Hweak : Forall (fun t : nat * obj => t.1 < S (next_timer q)) (timers q))
            by (eapply Forall_impl; [exact Hlt | simpl; intros; lia]).
          apply Forall_forall. intros t Ht%clearTimeout_subset.
          rewrite Forall_forall in Hweak. now apply Hweak.
        * constructor; [simpl; lia | constructor].
      + rewrite fmap_app. intros [Hin|Hin]%in_app_or.
        * apply Harmed.
          apply list_elem_of_In, list_elem_of_fmap in Hin as (t & -> & Hin).
          apply list_elem_of_In, list_elem_of_fmap. exists t.
          split; [reflexivity | now apply clearTimeout_subset in Hin].
        * simpl in Hin. lia.
      + exact Hres.
    - unfold fire in Hrun. destruct (timers q) as [|[id0 note0] armed] eqn:Htimers.
      + apply (IH q q' id Hrun Hid); [now rewrite Htimers | now rewrite Htimers | exact Hres].
      + destruct (later E fuel note0 (page_world q)) as [w0|]; [| discriminate].
        apply (IH _ q' id Hrun); simpl.
        * exact Hid.
        * now inversion Hlt.
        * intros Hin. apply Harmed. simpl. now right.
        * intros [->|Hin]; [apply Harmed; simpl; now left | now apply Hres]. }
  intros Hrun.
  set (p1 := (saveToKinto note1 p).2) in *.
  assert (Hp1 : one_timer p1).
  { right. exists (next_timer p), note1. now apply saveToKinto_one_timer. }
  destruct (saveToKinto_one_timer note2 p1 Hp1) as [Ht2 _].
  change (next_timer p1) with (S (next_timer p)) in Ht2.
  apply (Hgeneral steps _ p' (next_timer p) Hrun).
  - change (next_timer p < S (S (next_timer p))). lia.
  - rewrite Ht2. change (next_timer (saveToKinto note2 p1).2) with (S (S (next_timer p))).
    constructor; [simpl; lia | constructor].
  - rewrite Ht2. simpl. lia.
  - change (resolved (saveToKinto note2 p1).2) with (resolved p).
    intros Hin%list_elem_of_In. rewrite Forall_forall in Hresolved.
    specialize (Hresolved _ Hin). lia.
Qed.

End WithEnv.

Lemma page0_one_timer : one_timer MoreExamples.page0.
Proof. left. split; reflexivity. Qed.

Lemma at_most_one_timer_witness :
  one_timer
    (saveToKinto MoreExamples.typed_3
       (saveToKinto MoreExamples.typed_2
          (saveToKinto MoreExamples.typed_1 MoreExamples.page0).2).2).2.
Proof.
  apply (at_most_one_timer Examples.quiet 0
           [Save MoreExamples.typed_1; Save MoreExamples.typed_2;
            Save MoreExamples.typed_3] MoreExamples.page0).
  - exact page0_one_timer.
  - reflexivity.
Defined.

Lemma saves_coalesce_witness :
  exists p',
    run Examples.quiet 1
      (Save <$> ([MoreExamples.typed_1; MoreExamples.typed_2] ++ [MoreExamples.typed_3]))
      MoreExamples.page0 = Some p'
    /\ timers p' = [(0 + 2, MoreExamples.typed_3)]
    /\ syncDebounce p' = Some (0 + 2)
    /\ resolved p' = []
    /\ trace (page_world p')
       = [] ++ replicate 3 (SendMessage TextEditing)
    /\ fire Examples.quiet 1 p'
       = match later Examples.quiet 1 MoreExamples.typed_3 (page_world p') with
         | Some w => Some (mkPage w None [] (next_timer p') ((0 + 2) :: []))
         | None => None
         end.
Proof.
  apply (saves_coalesce Examples.quiet 1
           [MoreExamples.typed_1; MoreExamples.typed_2] MoreExamples.typed_3
           MoreExamples.page0).
  exact page0_one_timer.
Defined.

Lemma superseded_promise_never_resolves_witness :
  exists p',
    run Examples.quiet 1 [Fire; Fire]
      (saveToKinto MoreExamples.typed_2
         (saveToKinto MoreExamples.typed_1 MoreExamples.page0).2).2 = Some p'
    /\ ~ In (saveToKinto MoreExamples.typed_1 MoreExamples.page0).1 (resolved p').
Proof.
  eexists. split; [vm_compute; reflexivity |].
  eapply (superseded_promise_never_resolves Examples.quiet 1 [Fire; Fire]
            MoreExamples.typed_1 MoreExamples.typed_2 MoreExamples.page0).
  - exact page0_one_timer.
  - split; constructor.
  - vm_compute. reflexivity.
Defined.

End DebounceFacts.

(** ** The credential in the browser storage *)

Module StorageFacts.
Import Transformer Sync.

(** X25.  [BrowserStorageCredentials] keeps the credential under the key
    [credentials] and touches no other entry of the storage: what [set]
    stored is what [get] returns, after [clear] there is nothing to get,
    and an entry under another key reads the same before and after. *)
Theorem browser_storage_round_trip (storage : gmap string credential)
    (c : credential) (other : string) :
  other <> "credentials" ->
  credentials_get (credentials_set c storage) = Some c
  /\ credentials_get (credentials_clear (credentials_set c storage)) = None
  /\ credentials_set c storage !! other = storage !! other
  /\ credentials_clear storage !! other = storage !! other.
Proof.
  intros Hother. simpl. repeat split.
  - apply lookup_insert_eq.
  - apply lookup_delete_eq.
  - now apply lookup_insert_ne.
  - now apply lookup_delete_ne.
Qed.

Lemma browser_storage_round_trip_witness :
  credentials_get (credentials_set Examples.signed_in Examples.signed_in_storage)
  = Some Examples.signed_in
  /\ credentials_get
       (credentials_clear (credentials_set Examples.signed_in Examples.signed_in_storage))
     = None
  /\ credentials_set Examples.signed_in Examples.signed_in_storage !! "theme"
     = Examples.signed_in_storage !! "theme"
  /\ credentials_clear Examples.signed_in_storage !! "theme"
     = Examples.signed_in_storage !! "theme".
Proof.
  apply (browser_storage_round_trip Examples.signed_in_storage Examples.signed_in "theme").
  discriminate.
Defined.

End StorageFacts.
